(** * intel-undervolt: register encodings of [undervolt.c]

    A shallow embedding of [src/undervolt.c]: the unit codec (voltage
    offsets, power limits, time windows), and the three appliers
    [undervolt], [power_limit] and [tjoffset], which talk to the MSR
    device through [rd]/[wr] and to the memory-mapped block through
    [safe_rw].

    - C integers are [Z] with the wrap-around of their width written out;
    - C [float] values are IEEE 754 binary32 numbers, module [F32];
    - the device, [errno] and the constants of [undervolt.h] form the
      interface [Platform]; [log2f] and [exp2f] form the interface [LibM];
    - [printf] output is a list of structured lines. *)

From Stdlib Require Import ZArith Lia List String Bool QArith Qabs.
From Stdlib Require Import Floats.SpecFloat.
Import ListNotations.

Local Open Scope Z_scope.

(** ** Machine integers *)

(** [uint64_t]: arithmetic modulo 2^64. *)
Definition wrap64 (z : Z) : Z := z mod 2 ^ 64.

(** [int]: 32-bit two's complement. *)
Definition wrap_int (z : Z) : Z := (z + 2 ^ 31) mod 2 ^ 32 - 2 ^ 31.

(** ** IEEE 754 binary32 *)

Module F32.

(** A finite binary32 number is an integer multiple of 2^-149, the least
    subnormal: [Fin n] stands for [n * 2^-149].  The two zeros are
    identified; no operation of the program tells them apart. *)
Inductive float : Type :=
| Fin (n : Z)
| Inf (neg : bool)
| NaN.

Definition scale : Z := 2 ^ 149.

(** Round [p / q] (with [0 < q]) to the nearest integer, ties to even. *)
Definition rne (p q : Z) : Z :=
  let n := p / q in
  let r := p mod q in
  if 2 * r <? q then n
  else if q <? 2 * r then n + 1
  else if Z.even n then n else n + 1.

(** Spacing of the binary32 grid around magnitude [t], in units of
    2^-149, as a power of two: 24 significant bits. *)
Definition grid_exp (t : Z) : Z := Z.max 0 (Z.log2 t - 23).

(** Round the rational [p / q] units (with [0 < q]) to binary32, to
    nearest, ties to even; magnitudes from 2^128 on overflow. *)
Definition round32 (p q : Z) : float :=
  let k := grid_exp (Z.abs p / q) in
  let n := rne p (q * 2 ^ k) * 2 ^ k in
  if 2 ^ 277 <=? Z.abs n then Inf (n <? 0) else Fin n.

Definition of_Z (z : Z) : float := round32 (z * scale) 1.

Definition of_Q (x : Q) : float := round32 (Qnum x * scale) (Zpos (Qden x)).

(** The value of a finite number. *)
Definition to_Q (x : float) : Q :=
  match x with
  | Fin n => Qmake n (Z.to_pos scale)
  | _ => 0%Q
  end.

Definition is_finite (x : float) : bool :=
  match x with Fin _ => true | _ => false end.

Definition fneg (x : float) : float :=
  match x with
  | Fin n => Fin (- n)
  | Inf s => Inf (negb s)
  | NaN => NaN
  end.

Definition fadd (x y : float) : float :=
  match x, y with
  | NaN, _ | _, NaN => NaN
  | Inf a, Inf b => if Bool.eqb a b then Inf a else NaN
  | Inf a, Fin _ => Inf a
  | Fin _, Inf b => Inf b
  | Fin a, Fin b => round32 (a + b) 1
  end.

Definition fsub (x y : float) : float := fadd x (fneg y).

Definition fmul (x y : float) : float :=
  match x, y with
  | NaN, _ | _, NaN => NaN
  | Inf a, Inf b => Inf (xorb a b)
  | Inf a, Fin n | Fin n, Inf a =>
      if n =? 0 then NaN else Inf (xorb a (n <? 0))
  | Fin a, Fin b => round32 (a * b) scale
  end.

Definition fdiv (x y : float) : float :=
  match x, y with
  | NaN, _ | _, NaN => NaN
  | Inf _, Inf _ => NaN
  | Inf a, Fin n => Inf (xorb a (n <? 0))
  | Fin _, Inf _ => Fin 0
  | Fin a, Fin b =>
      if b =? 0 then (if a =? 0 then NaN else Inf (a <? 0))
      else round32 (Z.sgn b * a * scale) (Z.abs b)
  end.

(** Comparisons; every comparison with a NaN is false. *)
Definition flt (x y : float) : bool :=
  match x, y with
  | NaN, _ | _, NaN => false
  | Fin a, Fin b => a <? b
  | Fin _, Inf s => negb s
  | Inf s, Fin _ => s
  | Inf a, Inf b => a && negb b
  end.

Definition fle (x y : float) : bool :=
  match x, y with
  | NaN, _ | _, NaN => false
  | Fin a, Fin b => a <=? b
  | Fin _, Inf s => negb s
  | Inf s, Fin _ => s
  | Inf a, Inf b => a || negb b
  end.

(** [(int) x]: truncation toward zero.  C leaves the conversion undefined
    when the truncated value does not fit; the model then wraps, and gives
    the x86 "integer indefinite" for infinities and NaN. *)
Definition to_int (x : float) : Z :=
  match x with
  | Fin n => wrap_int (Z.quot n scale)
  | _ => - 2 ^ 31
  end.

(** [(uint64_t) x]: truncation toward zero.  C leaves the conversion
    undefined when the truncated value is outside 0 .. 2^64 - 1; the
    model then gives what the x86-64 conversion leaves in the register
    ([cvttss2si] on [x] below 2^63, on [x - 2^63] from 2^63 on): 0 from
    2^64 on and for +inf, the two's complement of a negative value down
    to -2^63, and the "integer indefinite" 2^63 below that, for -inf and
    for NaN. *)
Definition to_u64 (x : float) : Z :=
  match x with
  | Fin n =>
      let t := Z.quot n scale in
      if 2 ^ 64 <=? t then 0
      else if t <? - 2 ^ 63 then 2 ^ 63
      else wrap64 t
  | Inf false => 0
  | _ => 2 ^ 63
  end.

(** Embedding of the reference binary32 of [SpecFloat] (precision 24,
    exponent bound 128), used to cross-check the operations above. *)
Definition of_spec (x : spec_float) : float :=
  match x with
  | S754_zero _ => Fin 0
  | S754_infinity s => Inf s
  | S754_nan => NaN
  | S754_finite s m e =>
      Fin ((if s then -1 else 1) * Zpos m * 2 ^ (e + 149))
  end.

End F32.

Import F32.

Definition c_1_024f : float := Eval vm_compute in of_Q (1024 # 1000).
Definition c_0_5f : float := Eval vm_compute in of_Q (1 # 2).
Definition c_1_75f : float := Eval vm_compute in of_Q (7 # 4).
Definition c_1f : float := Eval vm_compute in of_Z 1.
Definition c_4f : float := Eval vm_compute in of_Z 4.


(** ** The C library's [log2f] and [exp2f]

    Not part of the program: the interface the program links against. *)
Class LibM : Type := {
  log2f : float -> float;
  exp2f : float -> float
}.

(** What the program needs of a [libm]: [log2f] of a positive finite
    number lies between the exponents of the powers of two that enclose
    it, [log2f] of +infinity is +infinity, and [exp2f] is exact at the
    integers whose power of two is a binary32 number. *)
Class LibMSpec (lm : LibM) : Prop := {
  log2f_lower : forall n k, 0 <= k -> 2 ^ k <= n < 2 ^ 277 ->
    fle (of_Z (k - 149)) (log2f (Fin n)) = true;
  log2f_upper : forall n k, 0 <= k <= 277 -> 0 < n <= 2 ^ k ->
    fle (log2f (Fin n)) (of_Z (k - 149)) = true;
  log2f_inf : log2f (Inf false) = Inf false;
  exp2f_int : forall k, -149 <= k <= 127 ->
    exp2f (of_Z k) = Fin (2 ^ (k + 149))
}.

(** *** A reference [libm]

    [log2f]: the integer part is the position of the leading bit, the
    fraction is read off bit by bit by repeated squaring of the mantissa
    in 60-bit fixed point. *)
Fixpoint log2_frac_bits (fuel : nat) (m acc : Z) : Z :=
  match fuel with
  | O => acc
  | S fuel' =>
      let m2 := m * m / 2 ^ 60 in
      if 2 ^ 61 <=? m2 then log2_frac_bits fuel' (m2 / 2) (2 * acc + 1)
      else log2_frac_bits fuel' m2 (2 * acc)
  end.

Definition ref_log2f (x : float) : float :=
  match x with
  | NaN => NaN
  | Inf true => NaN
  | Inf false => Inf false
  | Fin n =>
      if n <? 0 then NaN
      else if n =? 0 then Inf true
      else
        let e := Z.log2 n in
        let m := n * 2 ^ 60 / 2 ^ e in
        let f := log2_frac_bits 32 m 0 in
        round32 (((e - 149) * 2 ^ 32 + f) * scale) (2 ^ 32)
  end.

(** [exp2f]: exact at integers; between them, the chord of the curve
    (the program calls [exp2f] at integers only). *)
Definition ref_exp2f (x : float) : float :=
  match x with
  | NaN => NaN
  | Inf true => Fin 0
  | Inf false => Inf false
  | Fin n =>
      let e := n / scale in
      let r := n mod scale in
      if 128 <=? e then Inf false
      else if e <? -150 then Fin 0
      else round32 (2 ^ (e + 150) * (scale + r)) (2 * scale)
  end.

Definition ref_libm : LibM := {| log2f := ref_log2f; exp2f := ref_exp2f |}.

(** ** Unit codec *)

Section Codec.
Context {lm : LibM}.

(** [absf(x)], the macro [((x) < 0 ? -(x) : (x))] at type [float]. *)
Definition absf (x : float) : float :=
  if flt x (Fin 0) then fneg x else x.

(** [power_to_seconds], lines 99-103. *)
Definition power_to_seconds (value time_unit : Z) : float :=
  let multiplier :=
    fadd (of_Z 1) (fdiv (of_Z (Z.land (Z.shiftr value 6) 0x3)) c_4f) in
  let exponent := Z.land (Z.shiftr value 1) 0x1f in
  fdiv (fmul (exp2f (of_Z exponent)) multiplier) (of_Z time_unit).

(** One turn of the loop of [power_from_seconds], lines 113-127, on the
    pair [(last_diff, last_result)]. *)
Definition power_from_seconds_step (seconds : float) (time_unit : Z)
    (st : float * Z) (i : Z) : float * Z :=
  let '(last_diff, last_result) := st in
  let multiplier := fadd (of_Z 1) (fdiv (of_Z i) c_4f) in
  let value := fdiv (fmul seconds (of_Z time_unit)) multiplier in
  let exponent := log2f value in
  let exponent_int := to_int exponent in
  let diff := fsub exponent (of_Z exponent_int) in
  let '(exponent_int, diff) :=
    if (exponent_int <? 0x19) && flt c_0_5f diff
    then (wrap_int (exponent_int + 1), fsub c_1f diff)
    else (exponent_int, diff) in
  if (exponent_int <? 0x20) && flt diff last_diff
  then (diff, wrap_int (Z.lor (Z.shiftl i 6) (Z.shiftl exponent_int 1)))
  else st.

(** [power_from_seconds], lines 105-131. *)
Definition power_from_seconds (seconds : float) (time_unit : Z) : Z :=
  if fle (of_Z 0x1f)
         (log2f (fdiv (fmul seconds (of_Z time_unit)) c_1_75f))
  then 0xfe
  else
    snd (fold_left (power_from_seconds_step seconds time_unit)
                   [0; 1; 2; 3] (c_1f, 0)).

(** The static [mask] of [undervolt_it]. *)
Definition mask : Z := 0x800.

(** [uvint], lines 56-57: the encoded offset field of a plane. *)
Definition uvint (value : float) : Z :=
  Z.land
    (wrap64
       (Z.shiftl
          (to_u64 (fadd (fsub (of_Z mask) (fmul (absf value) c_1_024f))
                        c_0_5f))
          21))
    0xffffffff.

(** [val], line 79: the offset read back from the register, in mV. *)
Definition uv_decode (rdval : Z) : float :=
  fdiv (of_Z (Z.land (wrap64 (mask - Z.shiftr rdval 21)) (mask - 1)))
       c_1_024f.

(** The clamp of lines 182-187, on one of [short_term], [long_term]. *)
Definition power_clamp (requested power_unit : Z) : Z :=
  let max_power := Z.quot 0x7fff power_unit in
  wrap64
    (if requested <? 0 then 0
     else if max_power <? requested then max_power
     else wrap_int (requested * power_unit)).

End Codec.

(** ** Data model *)

(** A voltage-plane target, [uv_list_t]. *)
Record uv_list_t : Type := {
  title : string;
  index : Z;
  value : float
}.

(** A power domain descriptor, [power_domain_t]. *)
Record power_domain_t : Type := {
  name : string;
  msr_addr : Z;
  mem_addr : Z
}.

(** A power limit request, [power_limit_t]; [mem] is the mapped base
    address, [None] for the null pointer. *)
Record power_limit_t : Type := {
  apply : bool;
  short_term : Z;
  long_term : Z;
  short_time_window : float;
  long_time_window : float;
  mem : option Z
}.

(** The part of [config_t] the appliers read. *)
Record config_t : Type := {
  uv : list uv_list_t;
  power : list power_limit_t;
  tjoffset_apply : bool;
  tjoffset_value : float
}.

(** A C string pointer: [None] is [NULL]. *)
Definition cstr : Type := option string.

(** [errstr == NULL]. *)
Definition is_null (e : cstr) : bool :=
  match e with None => true | Some _ => false end.

(** The lines [printf] produces, one constructor per format string. *)
Inductive line : Type :=
| Newline
| UvFailed (title : string) (index : Z) (errstr : cstr)
| UvValue (title : string) (index : Z) (val : float)
| PowerReadFailed (name : string) (errstr : cstr)
| PowerNotEqual
| PowerWriteFailed (name : string) (errstr : cstr)
| PowerLocked (name : string)
| PowerShort (name : string) (watts : Z) (window : float) (enabled : bool)
| PowerLong (name : string) (watts : Z) (window : float) (enabled : bool)
| TempWriteFailed (errstr : cstr)
| TempOffset (offset : Z)
| TempReadFailed (errstr : cstr).

(** ** The platform

    The MSR device behind [config->fd_msr], the mapped memory behind
    [safe_rw], [errno], and the constants of [undervolt.h]. *)
Class Platform : Type := {
  world : Type;
  (** [rd(c, a, t)]: the 8 bytes at offset [a], or failure. *)
  rd : world -> Z -> option Z * world;
  (** [wr(c, a, t)]. *)
  wr : world -> Z -> Z -> bool * world;
  (** [safe_rw(mem, &v, false)]: guarded read of the mapped register. *)
  safe_rw_read : world -> option Z -> option Z * world;
  (** [safe_rw(mem, &v, true)]: guarded write. *)
  safe_rw_write : world -> option Z -> Z -> bool * world;
  (** [strerror(errno)]. *)
  strerror_errno : world -> string;
  MSR_ADDR_VOLTAGE : Z;
  MSR_ADDR_UNITS : Z;
  MSR_ADDR_TEMPERATURE : Z;
  MAP_MASK : Z
}.

(** What the program asked of the platform, in order. *)
Inductive access : Type :=
| MsrRead (addr : Z)
| MsrWrite (addr : Z) (v : Z)
| MemRead (ptr : option Z)
| MemWrite (ptr : option Z) (v : Z).

(** The state an applier threads: the platform, the caller's [*nl]
    ([None] when [nl] is null), what was printed and what was accessed. *)
Record state {P : Platform} : Type := {
  dev : world;
  nl : option bool;
  out : list line;
  log : list access
}.

Section Appliers.
Context {lm : LibM} {P : Platform}.

Definition printf (l : line) (s : state) : state :=
  {| dev := dev s; nl := nl s; out := out s ++ [l]; log := log s |}.

Definition do_rd (a : Z) (s : state) : option Z * state :=
  let '(r, w) := rd (dev s) a in
  (option_map wrap64 r,
   {| dev := w; nl := nl s; out := out s; log := log s ++ [MsrRead a] |}).

Definition do_wr (a v : Z) (s : state) : bool * state :=
  let '(r, w) := wr (dev s) a v in
  (r, {| dev := w; nl := nl s; out := out s;
         log := log s ++ [MsrWrite a v] |}).

Definition do_safe_rw_read (p : option Z) (s : state) : option Z * state :=
  let '(r, w) := safe_rw_read (dev s) p in
  (option_map wrap64 r,
   {| dev := w; nl := nl s; out := out s; log := log s ++ [MemRead p] |}).

Definition do_safe_rw_write (p : option Z) (v : Z) (s : state)
  : bool * state :=
  let '(r, w) := safe_rw_write (dev s) p v in
  (r, {| dev := w; nl := nl s; out := out s;
         log := log s ++ [MemWrite p v] |}).

(** Modelled from the spec: the macro [NEW_LINE(nl, nll)] of
    [undervolt.h], the "print separator line before first message per
    call" bookkeeping: on the first message of a call, when the caller
    passed [nl], a blank line is printed if something was printed before,
    and both flags are raised.  Returns the new [nll]. *)
Definition NEW_LINE (nll : bool) (s : state) : bool * state :=
  match nl s with
  | Some before =>
      if nll then (nll, s)
      else
        (true,
         {| dev := dev s; nl := Some true;
            out := if before then out s ++ [Newline] else out s;
            log := log s |})
  | None => (nll, s)
  end.

(** *** Voltage offsets *)

(** [undervolt_ctx_t] without its [config] and [nl] pointers, which the
    state carries. *)
Record undervolt_ctx_t : Type := {
  write : bool;
  success : bool;
  nll : bool
}.

Definition rdval_of (uv : uv_list_t) : Z :=
  Z.lor 0x8000001000000000 (wrap64 (Z.shiftl (wrap64 (index uv)) 40)).

Definition wrval_of (uv : uv_list_t) : Z :=
  Z.lor (Z.lor (rdval_of uv) 0x100000000) (uvint (value uv)).

(** [read_success] and the value read back, lines 63-65: the read
    request, then the read, both only after a write that succeeded. *)
Definition undervolt_read_back (uv : uv_list_t) (write_success : bool)
    (s : state) : bool * Z * state :=
  let rdval := rdval_of uv in
  if write_success then
    let '(ok, s) := do_wr MSR_ADDR_VOLTAGE rdval s in
    if ok then
      match do_rd MSR_ADDR_VOLTAGE s with
      | (Some v, s) => (true, v, s)
      | (None, s) => (false, rdval, s)
      end
    else (false, rdval, s)
  else (false, rdval, s).

(** [errstr], lines 67-72. *)
Definition undervolt_errstr (write write_success read_success : bool)
    (rdval wrval : Z) (s : state) : cstr :=
  if negb write_success || negb read_success
  then Some (strerror_errno (dev s))
  else if write
          && negb (Z.land rdval 0xffffffff =? Z.land wrval 0xffffffff)
  then Some "Values do not equal"%string
  else None.

(** The transfers of [undervolt_it] and their verdict, lines 61-72:
    [errstr], the value read back, and the state. *)
Definition undervolt_transfer (uv : uv_list_t) (write : bool) (s : state)
  : cstr * Z * state :=
  let wrval := wrval_of uv in
  let '(write_success, s) :=
    if write then do_wr MSR_ADDR_VOLTAGE wrval s else (true, s) in
  let '(read_success, rdval, s) := undervolt_read_back uv write_success s in
  (undervolt_errstr write write_success read_success rdval wrval s,
   rdval, s).

(** [undervolt_it], lines 52-82. *)
Definition undervolt_it (uv : uv_list_t) (cs : undervolt_ctx_t * state)
  : undervolt_ctx_t * state :=
  let '(ctx, s) := cs in
  let '(errstr, rdval, s) := undervolt_transfer uv (write ctx) s in
  let '(nll', s) := NEW_LINE (nll ctx) s in
  match errstr with
  | Some _ =>
      ({| write := write ctx; success := false; nll := nll' |},
       printf (UvFailed (title uv) (index uv) errstr) s)
  | None =>
      ({| write := write ctx; success := success ctx; nll := nll' |},
       printf (UvValue (title uv) (index uv) (uv_decode rdval)) s)
  end.

(** Modelled from the spec: [uv_list_foreach] of the list module, which
    is not part of [undervolt.c]: "iterating a caller-supplied list",
    the callback applied to each target in order. *)
Definition uv_list_foreach {A : Type} (l : list uv_list_t)
    (callback : uv_list_t -> A -> A) (data : A) : A :=
  fold_left (fun d x => callback x d) l data.

(** [undervolt], lines 84-97. *)
Definition undervolt (config : config_t) (write : bool) (s : state)
  : bool * state :=
  match uv config with
  | [] => (true, s)
  | _ =>
      let ctx := {| write := write; success := true; nll := false |} in
      let '(ctx, s) := uv_list_foreach (uv config) undervolt_it (ctx, s) in
      (success ctx, s)
  end.

(** *** Power limits *)

(** [power_unit] and [time_unit], lines 176-177. *)
Definition power_unit_of (units : Z) : Z :=
  to_int (fadd (exp2f (of_Z (Z.land units 0xf))) c_0_5f).

Definition time_unit_of (units : Z) : Z :=
  to_int (fadd (exp2f (of_Z (Z.land (Z.shiftr units 16) 0xf))) c_0_5f).

(** The power fields spliced into the register, lines 180-188. *)
Definition power_limit_fields (power : power_limit_t)
    (msr_limit power_unit : Z) : Z :=
  let masked := Z.land msr_limit 0xffff8000ffff8000 in
  let short_term := power_clamp (short_term power) power_unit in
  let long_term := power_clamp (long_term power) power_unit in
  Z.lor (Z.lor masked (wrap64 (Z.shiftl short_term 32))) long_term.

(** The time windows spliced into the register, lines 189-201. *)
Definition power_limit_windows (power : power_limit_t)
    (value time_unit : Z) : Z :=
  let value :=
    if flt (of_Z 0) (short_time_window power) then
      let masked := Z.land value 0xff01ffffffffffff in
      let time :=
        wrap64 (power_from_seconds (short_time_window power) time_unit) in
      Z.lor masked (wrap64 (Z.shiftl time 48))
    else value in
  if flt (of_Z 0) (long_time_window power) then
    let masked := Z.land value 0xffffffffff01ffff in
    let time :=
      wrap64 (power_from_seconds (long_time_window power) time_unit) in
    Z.lor masked (wrap64 (Z.shiftl time 16))
  else value.

(** The value to write, lines 180-201. *)
Definition power_limit_value (power : power_limit_t)
    (msr_limit power_unit time_unit : Z) : Z :=
  power_limit_windows power
    (power_limit_fields power msr_limit power_unit) time_unit.

(** The report of lines 224-240. *)
Definition power_limit_report (domain : power_domain_t)
    (msr_limit power_unit time_unit : Z) (s : state) : state :=
  let s :=
    if Z.land (Z.shiftr msr_limit 63) 0x1 =? 0 then s
    else printf (PowerLocked (name domain)) s in
  let short_term :=
    wrap_int (Z.land (Z.shiftr msr_limit 32) 0x7fff / wrap64 power_unit) in
  let long_term :=
    wrap_int (Z.land msr_limit 0x7fff / wrap64 power_unit) in
  let short_term_enabled :=
    negb (Z.land (Z.shiftr msr_limit 47) 1 =? 0) in
  let long_term_enabled :=
    negb (Z.land (Z.shiftr msr_limit 15) 1 =? 0) in
  let short_term_window :=
    power_to_seconds (wrap_int (Z.shiftr msr_limit 48)) time_unit in
  let long_term_window :=
    power_to_seconds (wrap_int (Z.shiftr msr_limit 16)) time_unit in
  printf (PowerLong (name domain) long_term long_term_window
            long_term_enabled)
    (printf (PowerShort (name domain) short_term short_term_window
               short_term_enabled) s).

(** Lines 219-241: the closing message. *)
Definition power_limit_finish (domain : power_domain_t) (errstr : cstr)
    (msr_limit power_unit time_unit : Z) (nll : bool) (s : state)
  : cstr * state :=
  let '(nll, s) := NEW_LINE nll s in
  match errstr with
  | Some _ => (errstr, printf (PowerWriteFailed (name domain) errstr) s)
  | None =>
      match nl s with
      | Some _ =>
          (errstr, power_limit_report domain msr_limit power_unit time_unit s)
      | None => (errstr, s)
      end
  end.

(** Lines 175-242: what [power_limit] does once [msr_limit], [mem_limit]
    and [units] are settled.  Returns [errstr] and the state. *)
Definition power_limit_apply (power : power_limit_t)
    (domain : power_domain_t) (mem : option Z) (write nll : bool)
    (msr_limit mem_limit units : Z) (s : state) : cstr * state :=
  let power_unit := power_unit_of units in
  let time_unit := time_unit_of units in
  let '(errstr, msr_limit, nll, s) :=
    if write then
      let value := power_limit_value power msr_limit power_unit time_unit in
      let '(ok, s) :=
        if msr_addr domain =? 0 then (true, s)
        else do_wr (msr_addr domain) value s in
      if ok then
        let '(ok, s) :=
          if mem_addr domain =? 0 then (true, s)
          else do_safe_rw_write mem value s in
        if ok then (None, value, nll, s)
        else (Some "Segmentation fault"%string, msr_limit, nll, s)
      else (Some (strerror_errno (dev s)), msr_limit, nll, s)
    else if negb (msr_limit =? mem_limit) then
      let '(nll, s) := NEW_LINE nll s in
      (None, msr_limit, nll, printf PowerNotEqual s)
    else (None, msr_limit, nll, s) in
  power_limit_finish domain errstr msr_limit power_unit time_unit nll s.

(** The body of [power_limit] for one request and its domain, lines
    137-247.  A local that C leaves uninitialised holds 0 until it is
    assigned; it is never read before. *)
Definition power_limit_domain (power : power_limit_t)
    (domain : power_domain_t) (write : bool) (s : state) : bool * state :=
  let nll := false in
  if apply power then
    let mem :=
      match mem power with
      | Some base => Some (base + Z.land (mem_addr domain) MAP_MASK)
      | None => None
      end in
    let '(msr_ok, msr_limit, s) :=
      if msr_addr domain =? 0 then (true, 0, s)
      else
        match do_rd (msr_addr domain) s with
        | (Some v, s) => (true, v, s)
        | (None, s) => (false, 0, s)
        end in
    let '(errstr, mem_limit, units, s) :=
      if msr_ok then
        let '(mem_ok, mem_limit, s) :=
          if mem_addr domain =? 0 then (true, 0, s)
          else
            match do_safe_rw_read mem s with
            | (Some v, s) => (true, v, s)
            | (None, s) => (false, 0, s)
            end in
        if mem_ok then
          match do_rd MSR_ADDR_UNITS s with
          | (Some u, s) => (None, mem_limit, u, s)
          | (None, s) => (Some (strerror_errno (dev s)), mem_limit, 0, s)
          end
        else (Some "Segmentation fault"%string, mem_limit, 0, s)
      else (Some (strerror_errno (dev s)), 0, 0, s) in
    let '(errstr, msr_limit, mem_limit) :=
      match errstr with
      | None =>
          let '(msr_limit, mem_limit) :=
            if msr_addr domain =? 0 then (mem_limit, mem_limit)
            else if mem_addr domain =? 0 then (msr_limit, msr_limit)
            else (msr_limit, mem_limit) in
          if (msr_addr domain =? 0) && (mem_addr domain =? 0)
          then (Some "No method available"%string, msr_limit, mem_limit)
          else (None, msr_limit, mem_limit)
      | Some _ => (errstr, msr_limit, mem_limit)
      end in
    let '(errstr, s) :=
      match errstr with
      | Some _ =>
          let '(nll, s) := NEW_LINE nll s in
          (errstr, printf (PowerReadFailed (name domain) errstr) s)
      | None =>
          power_limit_apply power domain mem write nll
            msr_limit mem_limit units s
      end in
    (is_null errstr, s)
  else (true, s).

(** [power_limit], lines 133-248: [power_domains] is the table of
    [undervolt.h]; an [index] outside the tables has no defined result. *)
Definition power_limit (power_domains : list power_domain_t)
    (config : config_t) (index : nat) (write : bool) (s : state)
  : option (bool * state) :=
  match nth_error (power config) index, nth_error power_domains index with
  | Some power, Some domain => Some (power_limit_domain power domain write s)
  | _, _ => None
  end.

(** *** Thermal offset *)

(** The write phase of [tjoffset], lines 255-267.  Returns [errstr]. *)
Definition tjoffset_write (config : config_t) (write : bool) (s : state)
  : cstr * state :=
  if write then
    match do_rd MSR_ADDR_TEMPERATURE s with
    | (Some limit, s) =>
        let offset := to_u64 (absf (tjoffset_value config)) in
        let offset := if 0x3f <? offset then 0x3f else offset in
        let limit :=
          Z.lor (Z.land limit 0xffffffffc0ffffff)
                (wrap64 (Z.shiftl offset 24)) in
        let '(ok, s) := do_wr MSR_ADDR_TEMPERATURE limit s in
        if ok then (None, s) else (Some (strerror_errno (dev s)), s)
    | (None, s) => (Some (strerror_errno (dev s)), s)
    end
  else (None, s).

(** [tjoffset], lines 250-286. *)
Definition tjoffset (config : config_t) (write : bool) (s : state)
  : bool * state :=
  let nll := false in
  if tjoffset_apply config then
    let '(errstr, s) := tjoffset_write config write s in
    let '(nll, s) := NEW_LINE nll s in
    let s :=
      match errstr with
      | Some _ => printf (TempWriteFailed errstr) s
      | None =>
          match nl s with
          | Some _ =>
              match do_rd MSR_ADDR_TEMPERATURE s with
              | (Some limit, s) =>
                  printf (TempOffset
                            (wrap_int
                               (Z.shiftr (Z.land limit 0x3f000000) 24))) s
              | (None, s) => printf (TempReadFailed errstr) s
              end
          | None => s
          end
      end in
    (is_null errstr, s)
  else (true, s).

End Appliers.

(** ** Notions used in the statements *)

(** The power field as the specification words it: the requested watts
    clamped to [0, 0x7fff / power_unit], a negative request meaning 0,
    then converted to raw units by multiplying by [power_unit]. *)
Definition clamp_spec (requested power_unit : Z) : Z :=
  Z.min (0x7fff / power_unit) (Z.max 0 requested) * power_unit.

(** A field of the value of line 188 against the specification's: equal
    to it for a request up to the maximum; for a request above the
    maximum, the maximum in watts, which under a power unit above 1 is
    below the field of the specification and, divided by [power_unit] as
    the report of lines 227-228 divides it, below the maximum. *)
Definition clamp_outcome (requested power_unit field : Z) : Prop :=
  (requested <= 0x7fff / power_unit ->
   field = clamp_spec requested power_unit) /\
  (0x7fff / power_unit < requested ->
   field = 0x7fff / power_unit /\
   (1 < power_unit ->
    field < clamp_spec requested power_unit /\
    field / power_unit < 0x7fff / power_unit)).

(** The report a line makes about a voltage plane: its title, its index
    and whether the plane succeeded. *)
Definition uv_report (l : line) : option (string * Z * bool) :=
  match l with
  | UvFailed t i _ => Some (t, i, false)
  | UvValue t i _ => Some (t, i, true)
  | _ => None
  end.

Fixpoint uv_reports (ls : list line) : list (string * Z * bool) :=
  match ls with
  | [] => []
  | l :: ls' =>
      match uv_report l with
      | Some r => r :: uv_reports ls'
      | None => uv_reports ls'
      end
  end.

(** The exchange [undervolt_it] has with the device for one target,
    lines 61-65: the write of the offset when writing, then the read
    request and the read. *)
Definition target_accesses {P : Platform} (write : bool) (uv : uv_list_t)
  : list access :=
  (if write then [MsrWrite MSR_ADDR_VOLTAGE (wrval_of uv)] else [])
  ++ [MsrWrite MSR_ADDR_VOLTAGE (rdval_of uv); MsrRead MSR_ADDR_VOLTAGE].


(** [g] is a binary32 number: at most 24 significant bits, the lowest
    of them at bit [j] or above. *)
Definition on_grid (g j : Z) : Prop :=
  0 <= j /\ j + 24 <= 277 /\ (2 ^ j | g) /\ Z.abs g < 2 ^ (j + 24).

(** Finite results stay below 2^128. *)
Definition in_range (x : float) : Prop :=
  match x with Fin n => Z.abs n < 2 ^ 277 | _ => True end.

(** The numerator of [1.024f]. *)
Definition c1024 : Z := Eval vm_compute in match c_1_024f with Fin n => n | _ => 0 end.

(** A time-window field as the register holds it: seven bits above a
    clear bit 0. *)
Definition window_field (f : Z) : Prop := 0 <= f <= 0xfe /\ Z.even f = true.

Definition pack_ok (i e : Z) : bool :=
  let r := wrap_int (Z.lor (Z.shiftl i 6) (Z.shiftl e 1)) in
  (0 <=? r) && (r <=? 0xfe) && Z.even r.

(** The bits a power-limit write is to leave alone: those outside the
    two power fields and outside the time-window field of each window
    that is positive. *)
Definition preserved_mask (power : power_limit_t) : Z :=
  Z.land 0xffff8000ffff8000
    (Z.land (if flt (of_Z 0) (short_time_window power)
             then 0xff01ffffffffffff else 0xffffffffffffffff)
            (if flt (of_Z 0) (long_time_window power)
             then 0xffffffffff01ffff else 0xffffffffffffffff)).

(** An access the memory-only path of [power_limit] may make. *)
Definition memory_path_access {P : Platform} (mem : option Z) (a : access)
  : Prop :=
  a = MemRead mem \/ a = MsrRead MSR_ADDR_UNITS \/
  exists v, a = MemWrite mem v.

(** ** A simulated platform

    A register file with a budget of reads and of writes that succeed,
    registers that may refuse to latch what is written, and one mapped
    memory cell that may fault. *)
Record sim_world : Type := {
  regs : list (Z * Z);
  reads_left : nat;
  writes_left : nat;
  latch : bool;
  cell : option Z;
  last_error : string
}.

Fixpoint sim_lookup (a : Z) (l : list (Z * Z)) : Z :=
  match l with
  | [] => 0
  | (k, v) :: l' => if k =? a then v else sim_lookup a l'
  end.

Definition sim_rd (w : sim_world) (a : Z) : option Z * sim_world :=
  match reads_left w with
  | O =>
      (None,
       {| regs := regs w; reads_left := O; writes_left := writes_left w;
          latch := latch w; cell := cell w;
          last_error := "Input/output error" |})
  | S n =>
      (Some (sim_lookup a (regs w)),
       {| regs := regs w; reads_left := n; writes_left := writes_left w;
          latch := latch w; cell := cell w; last_error := last_error w |})
  end.

Definition sim_wr (w : sim_world) (a v : Z) : bool * sim_world :=
  match writes_left w with
  | O =>
      (false,
       {| regs := regs w; reads_left := reads_left w; writes_left := O;
          latch := latch w; cell := cell w;
          last_error := "Operation not permitted" |})
  | S n =>
      (true,
       {| regs := if latch w then (a, v) :: regs w else regs w;
          reads_left := reads_left w; writes_left := n;
          latch := latch w; cell := cell w; last_error := last_error w |})
  end.

Definition sim_safe_rw_read (w : sim_world) (p : option Z)
  : option Z * sim_world :=
  match p, cell w with
  | Some _, Some v => (Some v, w)
  | _, _ => (None, w)
  end.

Definition sim_safe_rw_write (w : sim_world) (p : option Z) (v : Z)
  : bool * sim_world :=
  match p, cell w with
  | Some _, Some _ =>
      (true,
       {| regs := regs w; reads_left := reads_left w;
          writes_left := writes_left w; latch := latch w; cell := Some v;
          last_error := last_error w |})
  | _, _ => (false, w)
  end.

Definition sim_platform : Platform := {|
  world := sim_world;
  rd := sim_rd;
  wr := sim_wr;
  safe_rw_read := sim_safe_rw_read;
  safe_rw_write := sim_safe_rw_write;
  strerror_errno := last_error;
  MSR_ADDR_VOLTAGE := 0x150;
  MSR_ADDR_UNITS := 0x606;
  MSR_ADDR_TEMPERATURE := 0x1a2;
  MAP_MASK := 0xfff
|}.

Definition sim_state (w : sim_world) (nl : option bool)
  : @state sim_platform :=
  {| dev := (w : @world sim_platform); nl := nl; out := []; log := [] |}.

(** *** Sample devices and requests *)

(** No read succeeds. *)
Definition dead_reads : sim_world :=
  {| regs := []; reads_left := 0; writes_left := 8; latch := true;
     cell := None; last_error := "" |}.

(** One read and one write succeed, then reads fail. *)
Definition one_read : sim_world :=
  {| regs := [(0x1a2, 0x640000)]; reads_left := 1; writes_left := 1;
     latch := true; cell := None; last_error := "" |}.

(** Registers that do not latch what is written. *)
Definition stuck_world : sim_world :=
  {| regs := [(0x150, 0)]; reads_left := 8; writes_left := 8;
     latch := false; cell := None; last_error := "" |}.

(** A package domain reached through mapped memory only. *)
Definition mapped_world : sim_world :=
  {| regs := [(0x606, 0xa0e03)]; reads_left := 4; writes_left := 4;
     latch := true; cell := Some 0x4280c800dd80c8; last_error := "" |}.

Definition memory_domain : power_domain_t :=
  {| name := "package"; msr_addr := 0; mem_addr := 0xfed159a0 |}.

Definition no_path : power_domain_t :=
  {| name := "package"; msr_addr := 0; mem_addr := 0 |}.

Definition mapped_request : power_limit_t :=
  {| apply := true; short_term := 25; long_term := 15;
     short_time_window := Fin 0; long_time_window := Fin 0;
     mem := Some 0x7f0000000000 |}.

Definition plain_request : power_limit_t :=
  {| apply := true; short_term := 25; long_term := 15;
     short_time_window := Fin 0; long_time_window := Fin 0; mem := None |}.

Definition clamp_request : power_limit_t :=
  {| apply := true; short_term := 5000; long_term := -3;
     short_time_window := Fin 0; long_time_window := Fin 0; mem := None |}.

(** A short-term window of 1/4096 s. *)
Definition short_window_request : power_limit_t :=
  {| apply := true; short_term := 25; long_term := 15;
     short_time_window := of_Q (1 # 4096); long_time_window := Fin 0;
     mem := None |}.

Definition tj_config : config_t :=
  {| uv := []; power := []; tjoffset_apply := true;
     tjoffset_value := of_Z (-10) |}.

Definition cpu_target : uv_list_t :=
  {| title := "CPU"; index := 0; value := of_Z (-50) |}.

Definition gpu_target : uv_list_t :=
  {| title := "GPU"; index := 1; value := of_Z (-30) |}.

Definition uv_config : config_t :=
  {| uv := [cpu_target; gpu_target]; power := []; tjoffset_apply := false;
     tjoffset_value := Fin 0 |}.

(** ** Notions and samples for the further properties *)

(** An access that leaves the machine as it is. *)
Definition is_read (a : access) : Prop :=
  match a with
  | MsrRead _ | MemRead _ => True
  | MsrWrite _ _ | MemWrite _ _ => False
  end.

(** What [undervolt] may ask of the device when it only reads: the read
    of the voltage register, and the read request of a target, whose
    write flag (bit 32) is clear. *)
Definition read_request_access {P : Platform} (targets : list uv_list_t)
    (a : access) : Prop :=
  a = MsrRead MSR_ADDR_VOLTAGE \/
  exists uv, In uv targets /\ a = MsrWrite MSR_ADDR_VOLTAGE (rdval_of uv) /\
             Z.testbit (rdval_of uv) 32 = false.

(** *** A simulated voltage mailbox

    The voltage register as a mailbox: a value written with the write
    flag (bit 32) leaves its low 32 bits behind, a read request leaves
    the register alone, and a read returns what was left. *)
Definition mailbox_platform : Platform := {|
  world := Z;
  rd := fun w _ => (Some w, w);
  wr := fun w _ v =>
          (true, if Z.testbit v 32 then Z.land v 0xffffffff else w);
  safe_rw_read := fun w _ => (None, w);
  safe_rw_write := fun w _ _ => (false, w);
  strerror_errno := fun _ => "Bad address"%string;
  MSR_ADDR_VOLTAGE := 0x150;
  MSR_ADDR_UNITS := 0x606;
  MSR_ADDR_TEMPERATURE := 0x1a2;
  MAP_MASK := 0xfff
|}.

Definition mailbox_state : @state mailbox_platform :=
  {| dev := (0 : @world mailbox_platform); nl := None; out := [];
     log := [] |}.

(** Windows of 2.44 ms and 28 s. *)
Definition grid_request : power_limit_t :=
  {| apply := true; short_term := 25; long_term := 15;
     short_time_window := of_Q (244 # 100000);
     long_time_window := of_Z 28; mem := None |}.

(** A package domain reached through the register file only. *)
Definition register_domain : power_domain_t :=
  {| name := "package"; msr_addr := 0x610; mem_addr := 0 |}.

Definition register_world : sim_world :=
  {| regs := [(0x610, 0x4280c800dd80c8); (0x606, 0xa0e03)];
     reads_left := 4; writes_left := 4; latch := true; cell := None;
     last_error := "" |}.

(** [(int) (2^k + 0.5f)] gives [2^k] back. *)
Definition units_field_ok (k : Z) : bool :=
  to_int (fadd (Fin (2 ^ (k + 149))) c_0_5f) =? 2 ^ k.

(** The two fields of a time window make up the whole of an even [f]. *)
Definition window_fields_ok (f : Z) : bool :=
  Z.odd f
  || (f =? Z.lor (Z.shiftl (Z.land (Z.shiftr f 6) 0x3) 6)
                 (Z.shiftl (Z.land (Z.shiftr f 1) 0x1f) 1)).

(** * Properties *)

(** ** Rounding to binary32 *)

Lemma rne_cases (p q : Z) : 0 < q ->
  (rne p q = p / q /\ 2 * (p mod q) <= q) \/
  (rne p q = p / q + 1 /\ q <= 2 * (p mod q)).
Proof.
  intros Hq. unfold rne.
  destruct (Z.ltb_spec (2 * (p mod q)) q); [left; lia|].
  destruct (Z.ltb_spec q (2 * (p mod q))); [right; lia|].
  destruct (Z.even (p / q)); [left | right]; lia.
Qed.

Lemma rne_err (p q : Z) : 0 < q -> 2 * Z.abs (rne p q * q - p) <= q.
Proof.
  intros Hq.
  pose proof (Z.div_mod p q ltac:(lia)) as E.
  pose proof (Z.mod_pos_bound p q Hq) as B.
  destruct (rne_cases p q Hq) as [[-> H]|[-> H]]; nia.
Qed.

Lemma rne_ge (p q g : Z) : 0 < q -> g * q <= p -> g <= rne p q.
Proof.
  intros Hq H.
  assert (g <= p / q) by (apply Z.div_le_lower_bound; lia).
  destruct (rne_cases p q Hq) as [[-> _]|[-> _]]; lia.
Qed.

Lemma rne_le (p q g : Z) : 0 < q -> p <= g * q -> rne p q <= g.
Proof.
  intros Hq H.
  pose proof (Z.div_mod p q ltac:(lia)) as E.
  pose proof (Z.mod_pos_bound p q Hq) as B.
  destruct (rne_cases p q Hq) as [[-> _]|[-> H2]]; nia.
Qed.

Lemma rne_exact (m q : Z) : 0 < q -> rne (m * q) q = m.
Proof.
  intros Hq. unfold rne.
  rewrite Z.div_mul, Z.mod_mul by lia.
  destruct (Z.ltb_spec (2 * 0) q); lia.
Qed.

Lemma rne_opp (p q : Z) : 0 < q -> rne (- p) q = - rne p q.
Proof.
  intros Hq. unfold rne.
  pose proof (Z.div_mod p q ltac:(lia)) as E.
  pose proof (Z.mod_pos_bound p q Hq) as B.
  pose proof (Z.div_mod (- p) q ltac:(lia)) as E'.
  pose proof (Z.mod_pos_bound (- p) q Hq) as B'.
  destruct (Z.eq_dec (p mod q) 0) as [Hr|Hr].
  - assert ((- p) mod q = 0) by (apply Z.mod_opp_l_z; lia).
    assert (- p / q = - (p / q)) by (apply Z.div_opp_l_z; lia).
    rewrite Hr, H, H0.
    destruct (Z.ltb_spec (2 * 0) q); lia.
  - assert ((- p) mod q = q - p mod q) by (apply Z.mod_opp_l_nz; lia).
    assert (- p / q = - (p / q) - 1) by (apply Z.div_opp_l_nz; lia).
    rewrite H, H0.
    replace (Z.even (- (p / q) - 1)) with (negb (Z.even (p / q))).
    2:{ replace (- (p / q) - 1) with (- (Z.succ (p / q))) by lia.
        rewrite Z.even_opp, Z.even_succ, <- Z.negb_even. reflexivity. }
    destruct (Z.ltb_spec (2 * (p mod q)) q), (Z.ltb_spec q (2 * (p mod q))),
      (Z.ltb_spec (2 * (q - p mod q)) q), (Z.ltb_spec q (2 * (q - p mod q)));
      try lia; destruct (Z.even (p / q)); cbn; lia.
Qed.

Lemma grid_exp_nonneg t : 0 <= grid_exp t.
Proof. unfold grid_exp. lia. Qed.

Lemma grid_exp_le (t K : Z) : 0 <= K -> t < 2 ^ (K + 24) -> grid_exp t <= K.
Proof.
  intros HK Ht. unfold grid_exp.
  destruct (Z.le_gt_cases t 0) as [H0|H0].
  - rewrite Z.log2_nonpos by assumption. lia.
  - apply Z.log2_lt_pow2 in Ht; lia.
Qed.

Lemma grid_exp_pos_lower (t : Z) :
  0 < grid_exp t -> 2 ^ (grid_exp t + 23) <= t.
Proof.
  unfold grid_exp. intros H.
  assert (0 < t).
  { destruct (Z.le_gt_cases t 0) as [H0|H0]; [|assumption].
    rewrite Z.log2_nonpos in H by assumption. lia. }
  replace (Z.max 0 (Z.log2 t - 23) + 23) with (Z.log2 t) by lia.
  apply Z.log2_spec; assumption.
Qed.

(** Rounding stays finite and within half a grid step, for magnitudes
    below [2 ^ (K + 24)] units. *)
Lemma round32_bounded (p q K : Z) :
  0 < q -> 0 <= K -> K + 25 <= 277 -> Z.abs p < q * 2 ^ (K + 24) ->
  exists n, round32 p q = Fin n /\ 2 * Z.abs (n * q - p) <= q * 2 ^ K.
Proof.
  intros Hq HK HK' Hp. unfold round32.
  set (k := grid_exp (Z.abs p / q)).
  assert (Hk0 : 0 <= k) by apply grid_exp_nonneg.
  assert (Hk : k <= K).
  { apply grid_exp_le; [assumption|].
    apply Z.div_lt_upper_bound; lia. }
  assert (Hpk : 0 < 2 ^ k) by (apply Z.pow_pos_nonneg; lia).
  assert (HkK : 2 ^ k <= 2 ^ K) by (apply Z.pow_le_mono_r; lia).
  pose proof (rne_err p (q * 2 ^ k) ltac:(nia)) as E.
  set (m := rne p (q * 2 ^ k)) in *.
  assert (HB : 2 ^ (K + 25) <= 2 ^ 277) by (apply Z.pow_le_mono_r; lia).
  assert (H25 : 2 ^ (K + 25) = 2 * 2 ^ (K + 24)).
  { replace (K + 25) with (Z.succ (K + 24)) by lia.
    rewrite Z.pow_succ_r by lia. reflexivity. }
  assert (H24 : 2 ^ K <= 2 ^ (K + 24)) by (apply Z.pow_le_mono_r; lia).
  assert (Hn : Z.abs (m * 2 ^ k) < 2 ^ 277).
  { assert (Z.abs (m * 2 ^ k) * q < 2 ^ (K + 25) * q); [|nia].
    replace (Z.abs (m * 2 ^ k) * q) with (Z.abs (m * (q * 2 ^ k)))
      by (rewrite !Z.abs_mul; rewrite (Z.abs_eq q), (Z.abs_eq (2 ^ k)) by lia;
          ring).
    nia. }
  destruct (Z.leb_spec (2 ^ 277) (Z.abs (m * 2 ^ k))); [lia|].
  exists (m * 2 ^ k). split; [reflexivity|].
  replace (m * 2 ^ k * q) with (m * (q * 2 ^ k)) by ring. nia.
Qed.

(** Numbers with at most 24 significant bits are not rounded. *)
Lemma round32_exact (m j q : Z) :
  0 < q -> 0 <= j -> Z.abs m < 2 ^ 24 -> Z.abs (m * 2 ^ j) < 2 ^ 277 ->
  round32 (m * 2 ^ j * q) q = Fin (m * 2 ^ j).
Proof.
  intros Hq Hj Hm Hb. unfold round32.
  assert (Hpj : 0 < 2 ^ j) by (apply Z.pow_pos_nonneg; lia).
  rewrite (Z.abs_mul (m * 2 ^ j) q), (Z.abs_eq q), Z.div_mul by lia.
  set (k := grid_exp (Z.abs (m * 2 ^ j))).
  assert (Hk0 : 0 <= k) by apply grid_exp_nonneg.
  assert (Hlt : Z.abs (m * 2 ^ j) < 2 ^ (j + 24)).
  { rewrite Z.abs_mul, (Z.abs_eq (2 ^ j)), Z.pow_add_r by lia. nia. }
  assert (Hk : k <= j) by (apply grid_exp_le; assumption).
  assert (Hpk : 0 < 2 ^ k) by (apply Z.pow_pos_nonneg; lia).
  assert (E : rne (m * 2 ^ j * q) (q * 2 ^ k) * 2 ^ k = m * 2 ^ j).
  { assert (D : m * 2 ^ j = m * 2 ^ (j - k) * 2 ^ k).
    { rewrite <- Z.mul_assoc, <- Z.pow_add_r by lia. do 2 f_equal. lia. }
    replace (m * 2 ^ j * q) with (m * 2 ^ (j - k) * (q * 2 ^ k))
      by (rewrite D; ring).
    rewrite rne_exact by nia. lia. }
  rewrite E.
  destruct (Z.leb_spec (2 ^ 277) (Z.abs (m * 2 ^ j))); [lia|reflexivity].
Qed.

Lemma of_Z_exact (z : Z) : Z.abs z < 2 ^ 24 -> of_Z z = Fin (z * scale).
Proof.
  intros H. unfold of_Z, scale.
  rewrite <- (Z.mul_1_r (z * 2 ^ 149)) at 1.
  apply round32_exact; lia.
Qed.

Lemma pow2_divide (k j : Z) : 0 <= k <= j -> (2 ^ k | 2 ^ j).
Proof.
  intros H. exists (2 ^ (j - k)).
  rewrite <- Z.pow_add_r by lia. f_equal. lia.
Qed.

(** Rounding never crosses a binary32 number: from below, ... *)
Lemma round32_ge_grid (p q g j : Z) :
  0 < q -> 0 <= g -> on_grid g j -> g * q <= p ->
  fle (Fin g) (round32 p q) = true.
Proof.
  intros Hq Hg (Hj & Hj' & Hd & Hlt) Hp. unfold round32.
  assert (Hp0 : 0 <= p) by nia.
  set (k := grid_exp (Z.abs p / q)).
  assert (Hk0 : 0 <= k) by apply grid_exp_nonneg.
  assert (Hpk : 0 < 2 ^ k) by (apply Z.pow_pos_nonneg; lia).
  assert (Hn : g <= rne p (q * 2 ^ k) * 2 ^ k).
  { destruct (Z.le_gt_cases k j) as [Hkj|Hkj].
    - destruct (Z.divide_trans _ _ _ (pow2_divide k j ltac:(lia)) Hd)
        as [g' ->].
      assert (g' <= rne p (q * 2 ^ k)) by (apply rne_ge; nia).
      nia.
    - pose proof (grid_exp_pos_lower (Z.abs p / q) ltac:(fold k; lia)) as L.
      fold k in L. rewrite Z.abs_eq in L by assumption.
      assert (2 ^ (k + 23) * q <= p).
      { pose proof (Z.mul_div_le p q Hq). nia. }
      assert (2 ^ 23 <= rne p (q * 2 ^ k)).
      { apply rne_ge; [nia|]. rewrite Z.pow_add_r in H by lia. nia. }
      assert (2 ^ (j + 24) <= 2 ^ (k + 23)) by (apply Z.pow_le_mono_r; lia).
      rewrite Z.pow_add_r in H1 by lia. rewrite Z.pow_add_r in H1 by lia.
      rewrite Z.pow_add_r in Hlt by lia. nia. }
  set (n := rne p (q * 2 ^ k) * 2 ^ k) in *.
  destruct (Z.leb_spec (2 ^ 277) (Z.abs n)).
  - destruct (Z.ltb_spec n 0); [lia|reflexivity].
  - apply Z.leb_le. assumption.
Qed.

(** ... and from above, for non-negative numbers. *)
Lemma round32_le_grid (p q g j : Z) :
  0 < q -> 0 <= p -> on_grid g j -> p <= g * q ->
  fle (round32 p q) (Fin g) = true.
Proof.
  intros Hq Hp0 (Hj & Hj' & Hd & Hlt) Hp. unfold round32.
  assert (Hg : 0 <= g) by nia.
  set (k := grid_exp (Z.abs p / q)).
  assert (Hk0 : 0 <= k) by apply grid_exp_nonneg.
  assert (Hpk : 0 < 2 ^ k) by (apply Z.pow_pos_nonneg; lia).
  assert (Hkj : k <= j).
  { apply grid_exp_le; [assumption|]. rewrite Z.abs_eq by assumption.
    apply Z.div_lt_upper_bound; [assumption|]. nia. }
  destruct (Z.divide_trans _ _ _ (pow2_divide k j ltac:(lia)) Hd) as [g' ->].
  assert (rne p (q * 2 ^ k) <= g') by (apply rne_le; nia).
  assert (0 <= rne p (q * 2 ^ k)) by (apply rne_ge; nia).
  set (n := rne p (q * 2 ^ k) * 2 ^ k) in *.
  assert (Hn : 0 <= n <= g' * 2 ^ k) by (unfold n; nia).
  assert (2 ^ (j + 24) <= 2 ^ 277) by (apply Z.pow_le_mono_r; lia).
  destruct (Z.leb_spec (2 ^ 277) (Z.abs n)); [exfalso; lia|].
  apply Z.leb_le. lia.
Qed.

Lemma round32_opp (p q : Z) : 0 < q -> round32 (- p) q = fneg (round32 p q).
Proof.
  intros Hq. unfold round32. rewrite Z.abs_opp.
  set (k := grid_exp (Z.abs p / q)).
  assert (0 < 2 ^ k) by (apply Z.pow_pos_nonneg; [lia|apply grid_exp_nonneg]).
  rewrite rne_opp by nia.
  rewrite Z.mul_opp_l, Z.abs_opp.
  set (n := rne p (q * 2 ^ k) * 2 ^ k).
  destruct (Z.leb_spec (2 ^ 277) (Z.abs n)); [|reflexivity].
  unfold fneg. f_equal. assert (0 < 2 ^ 277) by (apply Z.pow_pos_nonneg; lia).
  destruct (Z.ltb_spec (- n) 0), (Z.ltb_spec n 0); unfold negb; lia.
Qed.

Lemma on_grid_opp g j : on_grid g j -> on_grid (- g) j.
Proof.
  intros (? & ? & ? & ?). repeat split; try assumption.
  - apply Z.divide_opp_r. assumption.
  - rewrite Z.abs_opp. assumption.
Qed.

Lemma on_grid_0 : on_grid 0 0.
Proof. repeat split; try lia. apply Z.divide_0_r. Qed.

Lemma on_grid_int z : Z.abs z < 2 ^ 24 -> on_grid (z * scale) 149.
Proof.
  intros H. repeat split; try lia.
  - exists z. reflexivity.
  - rewrite Z.abs_mul, Z.pow_add_r by lia. change (Z.abs scale) with (2 ^ 149).
    assert (0 < 2 ^ 149) by reflexivity. nia.
Qed.

Lemma fle_fneg_l x g : fle (Fin g) x = true -> fle (fneg x) (Fin (- g)) = true.
Proof.
  destruct x as [n|[]|]; cbn; try congruence.
  rewrite !Z.leb_le. lia.
Qed.

Lemma fle_fneg_r x g : fle x (Fin g) = true -> fle (Fin (- g)) (fneg x) = true.
Proof.
  destruct x as [n|[]|]; cbn; try congruence.
  rewrite !Z.leb_le. lia.
Qed.

Lemma fle_trans_fin x a b :
  fle x (Fin a) = true -> a <= b -> fle x (Fin b) = true.
Proof.
  destruct x as [n|[]|]; cbn; try congruence.
  rewrite !Z.leb_le. lia.
Qed.

(** Rounding never crosses a binary32 number, whatever the signs. *)
Lemma round32_le (p q g j : Z) :
  0 < q -> on_grid g j -> p <= g * q -> fle (round32 p q) (Fin g) = true.
Proof.
  intros Hq Hg Hp.
  destruct (Z.le_gt_cases 0 p) as [Hp0|Hp0].
  - apply round32_le_grid with j; assumption.
  - rewrite <- (Z.opp_involutive p), round32_opp by assumption.
    rewrite <- (Z.opp_involutive g).
    destruct (Z.le_gt_cases 0 g) as [Hg0|Hg0].
    + apply fle_trans_fin with (- 0); [|lia].
      apply fle_fneg_l. apply round32_ge_grid with 0;
        [assumption | lia | apply on_grid_0 | lia].
    + apply fle_fneg_l. apply round32_ge_grid with j;
        [assumption | lia | apply on_grid_opp; assumption | nia].
Qed.

Lemma round32_ge (p q g j : Z) :
  0 < q -> on_grid g j -> g * q <= p -> fle (Fin g) (round32 p q) = true.
Proof.
  intros Hq Hg Hp.
  rewrite <- (Z.opp_involutive p), round32_opp by assumption.
  rewrite <- (Z.opp_involutive g).
  apply fle_fneg_r. apply round32_le with j;
    [assumption | apply on_grid_opp; assumption | nia].
Qed.

Lemma round32_fin_bound p q n : round32 p q = Fin n -> Z.abs n < 2 ^ 277.
Proof.
  unfold round32.
  destruct (Z.leb_spec (2 ^ 277)
              (Z.abs (rne p (q * 2 ^ grid_exp (Z.abs p / q))
                      * 2 ^ grid_exp (Z.abs p / q)))); [discriminate|].
  intros [= <-]. assumption.
Qed.

Lemma round32_in_range p q : in_range (round32 p q).
Proof.
  destruct (round32 p q) eqn:E; cbn; trivial.
  eapply round32_fin_bound; eassumption.
Qed.

Lemma fmul_in_range x y : in_range (fmul x y).
Proof.
  destruct x as [a|[]|], y as [b|[]|]; cbn [fmul];
    match goal with
    | |- in_range (round32 _ _) => apply round32_in_range
    | |- context [?c =? 0] => destruct (c =? 0); exact I
    | |- _ => exact I
    end.
Qed.

Lemma fdiv_in_range x y : in_range (fdiv x y).
Proof.
  destruct x as [a|[]|], y as [b|[]|]; cbn [fdiv];
    match goal with
    | |- in_range (if ?b =? 0 then _ else _) =>
        destruct (b =? 0);
        [match goal with |- context [?a =? 0] => destruct (a =? 0) end;
         exact I
        | apply round32_in_range]
    | |- in_range (Fin 0) => reflexivity
    | |- _ => exact I
    end.
Qed.

(** The operations agree with the reference binary32 of [SpecFloat]. *)
Example fmul_agrees_with_SpecFloat :
  fmul (of_Z 250) c_1_024f
  = of_spec (SFmul 24 128 (binary_normalize 24 128 250 0 false)
               (SFdiv 24 128 (binary_normalize 24 128 1024 0 false)
                             (binary_normalize 24 128 1000 0 false))).
Proof. vm_compute. reflexivity. Qed.

Example fdiv_agrees_with_SpecFloat :
  fdiv (of_Z 1) (of_Z 3)
  = of_spec (SFdiv 24 128 (binary_normalize 24 128 1 0 false)
                          (binary_normalize 24 128 3 0 false)).
Proof. vm_compute. reflexivity. Qed.

Example fadd_agrees_with_SpecFloat :
  fadd (of_Q (1 # 3)) (of_Z 16777216)
  = of_spec (SFadd 24 128
               (SFdiv 24 128 (binary_normalize 24 128 1 0 false)
                             (binary_normalize 24 128 3 0 false))
               (binary_normalize 24 128 16777216 0 false)).
Proof. vm_compute. reflexivity. Qed.

Example fmul_subnormal_agrees_with_SpecFloat :
  fmul (of_Q (-1 # 3)) (Fin 7)
  = of_spec (SFmul 24 128
               (SFdiv 24 128 (binary_normalize 24 128 (-1) 0 false)
                             (binary_normalize 24 128 3 0 false))
               (binary_normalize 24 128 7 (-149) false)).
Proof. vm_compute. reflexivity. Qed.

Example fmul_overflow_agrees_with_SpecFloat :
  fmul (of_Z (2 ^ 100)) (of_Z (2 ^ 28 - 1))
  = of_spec (SFmul 24 128 (binary_normalize 24 128 1 100 false)
               (binary_normalize 24 128 (2 ^ 28 - 1) 0 false)).
Proof. vm_compute. reflexivity. Qed.

(** The cast to [uint64_t] inside and outside its range. *)
Example to_u64_samples :
  to_u64 (of_Q (5 # 2)) = 2 /\ to_u64 (of_Z (2 ^ 63)) = 2 ^ 63 /\
  to_u64 (of_Z (2 ^ 64)) = 0 /\ to_u64 (Inf false) = 0 /\
  to_u64 (of_Z (-1)) = 2 ^ 64 - 1 /\ to_u64 NaN = 2 ^ 63.
Proof. repeat split; vm_compute; reflexivity. Qed.

(** ** The reference [libm] meets [LibMSpec] *)

Lemma log2_frac_bits_bound (fuel : nat) (m acc : Z) :
  0 <= acc ->
  acc * 2 ^ Z.of_nat fuel <= log2_frac_bits fuel m acc
    < (acc + 1) * 2 ^ Z.of_nat fuel.
Proof.
  revert m acc. induction fuel as [|fuel IH]; intros m acc Hacc.
  - cbn [log2_frac_bits]. change (2 ^ Z.of_nat 0) with 1. lia.
  - cbn [log2_frac_bits]. rewrite Nat2Z.inj_succ, Z.pow_succ_r by lia.
    assert (0 < 2 ^ Z.of_nat fuel) by (apply Z.pow_pos_nonneg; lia).
    destruct (2 ^ 61 <=? m * m / 2 ^ 60).
    + specialize (IH (m * m / 2 ^ 60 / 2) (2 * acc + 1) ltac:(lia)). nia.
    + specialize (IH (m * m / 2 ^ 60) (2 * acc) ltac:(lia)). nia.
Qed.

Lemma ref_log2f_lower n k :
  0 <= k -> 2 ^ k <= n < 2 ^ 277 ->
  fle (of_Z (k - 149)) (ref_log2f (Fin n)) = true.
Proof.
  intros Hk [Hl Hu].
  assert (Hn : 0 < n) by (pose proof (Z.pow_pos_nonneg 2 k); lia).
  assert (He : k <= Z.log2 n) by (apply Z.log2_le_pow2; assumption).
  assert (He' : Z.log2 n < 277) by (apply Z.log2_lt_pow2; assumption).
  rewrite of_Z_exact by (change (2 ^ 24) with 16777216; lia).
  unfold ref_log2f.
  destruct (Z.ltb_spec n 0); [lia|]. destruct (Z.eqb_spec n 0); [lia|].
  apply round32_ge with 149; [reflexivity | |].
  - apply on_grid_int. change (2 ^ 24) with 16777216. lia.
  - pose proof (log2_frac_bits_bound 32 (n * 2 ^ 60 / 2 ^ Z.log2 n) 0
                  ltac:(lia)) as [B _].
    assert (0 < scale) by reflexivity.
    change (2 ^ 32) with 4294967296 in *. nia.
Qed.

Lemma ref_log2f_upper n k :
  0 <= k <= 277 -> 0 < n <= 2 ^ k ->
  fle (ref_log2f (Fin n)) (of_Z (k - 149)) = true.
Proof.
  intros Hk [Hn Hu].
  rewrite of_Z_exact by (change (2 ^ 24) with 16777216; lia).
  unfold ref_log2f.
  destruct (Z.ltb_spec n 0); [lia|]. destruct (Z.eqb_spec n 0); [lia|].
  assert (0 <= Z.log2 n) by apply Z.log2_nonneg.
  apply round32_le with 149; [reflexivity | |].
  - apply on_grid_int. change (2 ^ 24) with 16777216. lia.
  - assert (0 < scale) by reflexivity.
    destruct (Z.eq_dec n (2 ^ k)) as [->|Hne].
    + rewrite Z.log2_pow2 by lia.
      replace (2 ^ k * 2 ^ 60 / 2 ^ k) with (2 ^ 60)
        by (rewrite Z.mul_comm, Z.div_mul;
            [reflexivity | apply Z.pow_nonzero; lia]).
      change (log2_frac_bits 32 (2 ^ 60) 0) with 0. lia.
    + assert (Z.log2 n < k) by (apply Z.log2_lt_pow2; lia).
      pose proof (log2_frac_bits_bound 32 (n * 2 ^ 60 / 2 ^ Z.log2 n) 0
                    ltac:(lia)) as [_ B].
      change (2 ^ Z.of_nat 32) with 4294967296 in B.
      change (2 ^ 32) with 4294967296. nia.
Qed.

Lemma ref_exp2f_int k :
  -149 <= k <= 127 -> ref_exp2f (of_Z k) = Fin (2 ^ (k + 149)).
Proof.
  intros Hk. rewrite of_Z_exact by (change (2 ^ 24) with 16777216; lia).
  unfold ref_exp2f.
  assert (Hs : 0 < scale) by reflexivity.
  rewrite Z.div_mul, Z.mod_mul by lia.
  destruct (Z.leb_spec 128 k); [lia|]. destruct (Z.ltb_spec k (-150)); [lia|].
  assert (Hp : 0 < 2 ^ (k + 149)) by (apply Z.pow_pos_nonneg; lia).
  replace (2 ^ (k + 150) * (scale + 0))
    with (1 * 2 ^ (k + 149) * (2 * scale)).
  2:{ replace (k + 150) with (Z.succ (k + 149)) by lia.
      rewrite Z.pow_succ_r by lia. ring. }
  rewrite round32_exact; [f_equal; lia | lia | lia | reflexivity |].
  rewrite Z.mul_1_l, Z.abs_eq by lia.
  apply Z.pow_lt_mono_r; lia.
Qed.

Lemma ref_libm_spec : LibMSpec ref_libm.
Proof.
  constructor.
  - exact ref_log2f_lower.
  - exact ref_log2f_upper.
  - reflexivity.
  - exact ref_exp2f_int.
Qed.

(** ** The voltage codec *)

Lemma land_low32 x : Z.land x 0xffffffff = x mod 2 ^ 32.
Proof. change 0xffffffff with (Z.ones 32). apply Z.land_ones. lia. Qed.

Lemma uv_field_bits (raw N : Z) :
  1 <= N <= 2048 ->
  Z.land raw 0xffffffff = Z.land (wrap64 (Z.shiftl N 21)) 0xffffffff ->
  Z.land (wrap64 (mask - Z.shiftr raw 21)) (mask - 1) = 2048 - N.
Proof.
  intros HN H. rewrite !land_low32 in H.
  unfold wrap64, mask in *.
  change (0x800 - 1) with (Z.ones 11). rewrite Z.land_ones by lia.
  rewrite Z.shiftl_mul_pow2 in H by lia.
  rewrite Z.shiftr_div_pow2 by lia.
  change (2 ^ 32) with 4294967296 in H.
  change (2 ^ 64) with 18446744073709551616 in *.
  change (2 ^ 21) with 2097152 in *.
  change (2 ^ 11) with 2048.
  Z.div_mod_to_equations. lia.
Qed.

Lemma absf_fin a : absf (Fin a) = Fin (Z.abs a).
Proof.
  unfold absf, flt, fneg. destruct (Z.ltb_spec a 0); f_equal; lia.
Qed.

Lemma to_Q_dist (x y u : Z) (v : positive) :
  (Qabs (to_Q (Fin x) - to_Q (Fin y)) <= u # v)%Q <->
  Z.abs (x - y) * Zpos v <= u * scale.
Proof.
  unfold to_Q, Qminus, Qplus, Qopp, Qabs, Qle. cbn [Qnum Qden].
  assert (Hs : 0 < scale) by reflexivity.
  rewrite Pos2Z.inj_mul, Z2Pos.id by assumption.
  replace (x * scale + - y * scale) with ((x - y) * scale) by ring.
  rewrite Z.abs_mul, (Z.abs_eq scale) by lia.
  split; intros H; nia.
Qed.

(** In the range of [uint64_t] the cast is the integer part. *)
Lemma to_u64_in_range (n : Z) :
  0 <= n < 2 ^ 64 * scale -> to_u64 (Fin n) = n / scale.
Proof.
  intros H. assert (Hs : 0 < scale) by reflexivity.
  unfold to_u64. rewrite Z.quot_div_nonneg by lia.
  assert (0 <= n / scale) by (apply Z.div_pos; lia).
  assert (n / scale < 2 ^ 64) by (apply Z.div_lt_upper_bound; lia).
  cbv zeta.
  destruct (Z.leb_spec (2 ^ 64) (n / scale)); [lia|].
  destruct (Z.ltb_spec (n / scale) (- 2 ^ 63)); [lia|].
  unfold wrap64. apply Z.mod_small. lia.
Qed.

Lemma to_u64_nonneg x : 0 <= to_u64 x.
Proof.
  destruct x as [n|[]|]; cbn [to_u64]; try lia.
  cbv zeta.
  destruct (2 ^ 64 <=? Z.quot n scale); [lia|].
  destruct (Z.quot n scale <? - 2 ^ 63); [lia|].
  unfold wrap64. apply Z.mod_pos_bound. lia.
Qed.

(** The integer behind [uvint]: within half a unit (and rounding) of
    [2048 - |mV| * 1.024]. *)
Lemma uv_encode_int (a : Z) :
  0 <= a <= 250 * scale ->
  exists N,
    to_u64 (fadd (fsub (of_Z mask) (fmul (Fin a) c_1_024f)) c_0_5f) = N /\
    1 <= N <= 2048 /\
    Z.abs ((2048 - N) * scale * scale - a * c1024)
      <= 2 ^ 148 * scale + 2 ^ 140 * scale.
Proof.
  intros Ha.
  assert (Hs : scale = 2 ^ 149) by reflexivity.
  destruct (round32_bounded (a * c1024) scale 134) as (n1 & E1 & B1);
    [lia | lia | lia | |].
  { rewrite Z.abs_eq by (unfold c1024; lia). unfold c1024. rewrite Hs in *.
    change (2 ^ (134 + 24)) with (2 ^ 158). lia. }
  destruct (round32_bounded (2048 * scale + - n1) 1 137) as (n2 & E2 & B2);
    [lia | lia | lia | |].
  { unfold c1024 in B1. rewrite Hs in *.
    change (2 ^ (137 + 24)) with (2 ^ 161). lia. }
  destruct (round32_bounded (n2 + 2 ^ 148) 1 137) as (n3 & E3 & B3);
    [lia | lia | lia | |].
  { unfold c1024 in B1. rewrite Hs in *.
    change (2 ^ (137 + 24)) with (2 ^ 161). lia. }
  assert (Hn3 : 1792 * scale <= n3 < 2049 * scale).
  { unfold c1024 in B1. rewrite Hs in *. lia. }
  exists (n3 / scale).
  assert (HN : 1792 <= n3 / scale <= 2048).
  { split; [apply Z.div_le_lower_bound; lia|].
    assert (n3 / scale < 2049) by (apply Z.div_lt_upper_bound; lia). lia. }
  split; [|split; [lia|]].
  - change (of_Z mask) with (Fin (2048 * scale)).
    unfold fmul, fsub, fadd, fneg. change c_1_024f with (Fin c1024).
    cbv iota beta. rewrite E1. cbv iota beta. rewrite E2.
    change c_0_5f with (Fin (2 ^ 148)). cbv iota beta. rewrite E3.
    rewrite to_u64_in_range; [reflexivity|].
    split; [lia|]. rewrite Hs in *. lia.
  - pose proof (Z.div_mod n3 scale ltac:(lia)) as D.
    pose proof (Z.mod_pos_bound n3 scale ltac:(lia)) as M.
    unfold c1024 in *. rewrite Hs in *. lia.
Qed.

Lemma voltage_codec_roundtrip_fin (a raw : Z) :
  - (250 * scale) <= a <= 250 * scale ->
  Z.land raw 0xffffffff = uvint (Fin a) ->
  is_finite (uv_decode raw) = true /\
  (Qabs (to_Q (uv_decode raw) - to_Q (absf (Fin a))) <= 1000 # 1024)%Q.
Proof.
  intros Ha Hraw.
  assert (Hs : scale = 2 ^ 149) by reflexivity.
  rewrite absf_fin.
  destruct (uv_encode_int (Z.abs a) ltac:(lia)) as (N & EN & HN & BN).
  unfold uvint in Hraw. rewrite absf_fin, EN in Hraw.
  unfold uv_decode. rewrite (uv_field_bits raw N HN Hraw).
  rewrite of_Z_exact by lia.
  unfold fdiv. change c_1_024f with (Fin c1024).
  change (c1024 =? 0) with false. cbv iota.
  change (Z.sgn c1024) with 1. change (Z.abs c1024) with c1024.
  destruct (round32_bounded (1 * ((2048 - N) * scale) * scale) c1024 133)
    as (n4 & E4 & B4); [reflexivity | lia | lia | |].
  { unfold c1024 in *. rewrite Hs in *.
    change (2 ^ (133 + 24)) with (2 ^ 157). lia. }
  rewrite E4. split; [reflexivity|].
  apply to_Q_dist.
  unfold c1024 in *. rewrite Hs in *. lia.
Qed.

(** C2: for every offset [mV] of magnitude at most 250, a register value
    whose low 32 bits are the encoded field [uvint mV] decodes, by
    [uv_decode], to a finite number within 1/1.024 mV of [|mV|]. *)
Theorem voltage_codec_roundtrip (mV : float) (raw : Z) :
  fle (absf mV) (of_Z 250) = true ->
  Z.land raw 0xffffffff = uvint mV ->
  is_finite (uv_decode raw) = true /\
  (Qabs (to_Q (uv_decode raw) - to_Q (absf mV)) <= 1000 # 1024)%Q.
Proof.
  intros Hm Hraw.
  change (of_Z 250) with (Fin (250 * scale)) in Hm.
  destruct mV as [a|[]|].
  - apply voltage_codec_roundtrip_fin; [|exact Hraw].
    rewrite absf_fin in Hm. cbn [fle] in Hm. apply Z.leb_le in Hm. lia.
  - exfalso. unfold absf in Hm. cbn [flt fneg negb fle] in Hm.
    discriminate Hm.
  - exfalso. unfold absf in Hm. cbn [flt fneg negb fle] in Hm.
    discriminate Hm.
  - exfalso. unfold absf in Hm. cbn [flt fle] in Hm. discriminate Hm.
Qed.

Lemma voltage_codec_roundtrip_witness :
  is_finite (uv_decode (wrval_of cpu_target)) = true /\
  (Qabs (to_Q (uv_decode (wrval_of cpu_target)) - to_Q (absf (of_Z (-50))))
     <= 1000 # 1024)%Q.
Proof.
  apply (voltage_codec_roundtrip (of_Z (-50)) (wrval_of cpu_target)).
  - vm_compute. reflexivity.
  - vm_compute. reflexivity.
Defined.

(** ** The power fields *)

Lemma power_clamp_cases (requested power_unit : Z) :
  0 < power_unit -> - 2 ^ 31 <= requested < 2 ^ 31 ->
  ((requested < 0 -> power_clamp requested power_unit = 0) /\
   (0x7fff / power_unit < requested ->
    power_clamp requested power_unit = 0x7fff / power_unit) /\
   (0 <= requested <= 0x7fff / power_unit ->
    power_clamp requested power_unit = requested * power_unit)) /\
  0 <= power_clamp requested power_unit <= 0x7fff.
Proof.
  intros Hu Hr. unfold power_clamp.
  rewrite Z.quot_div_nonneg by lia.
  assert (Hm : 0 <= 0x7fff / power_unit <= 0x7fff).
  { split; [apply Z.div_pos; lia|].
    apply Z.div_le_upper_bound; nia. }
  assert (Hp : 0x7fff / power_unit * power_unit <= 0x7fff).
  { pose proof (Z.mul_div_le 0x7fff power_unit Hu). lia. }
  destruct (Z.ltb_spec requested 0).
  - change (wrap64 0) with 0. repeat split; intros; lia.
  - destruct (Z.ltb_spec (0x7fff / power_unit) requested).
    + unfold wrap64. rewrite Z.mod_small by lia. repeat split; intros; lia.
    + assert (0 <= requested * power_unit <= 0x7fff) by nia.
      unfold wrap_int, wrap64.
      rewrite (Z.mod_small (requested * power_unit + 2 ^ 31)) by lia.
      rewrite Z.mod_small by lia. repeat split; intros; lia.
Qed.

(** The clamp of lines 182-184 against the specification's. *)
Lemma power_clamp_outcome (requested power_unit : Z) :
  0 < power_unit <= 0x7fff -> - 2 ^ 31 <= requested < 2 ^ 31 ->
  clamp_outcome requested power_unit (power_clamp requested power_unit).
Proof.
  intros Hu Hr.
  destruct (power_clamp_cases requested power_unit ltac:(lia) Hr)
    as [(Cn & Ca & Ci) _].
  assert (Hm : 1 <= 0x7fff / power_unit).
  { apply Z.div_le_lower_bound; lia. }
  unfold clamp_outcome, clamp_spec. split.
  - intros Hle. destruct (Z.lt_ge_cases requested 0) as [Hn|Hn].
    + rewrite (Cn Hn), Z.max_l, Z.min_r by lia. reflexivity.
    + rewrite Ci, Z.max_r, Z.min_r by lia. reflexivity.
  - intros Hgt. rewrite (Ca Hgt), Z.max_r, Z.min_l by lia.
    split; [reflexivity|]. intros H1. split; [nia|].
    apply Z.div_lt_upper_bound; nia.
Qed.

Lemma low15 f : 0 <= f <= 0x7fff -> Z.land f 0x7fff = f.
Proof.
  intros H. change 0x7fff with (Z.ones 15).
  rewrite Z.land_ones by lia. apply Z.mod_small. lia.
Qed.

Lemma power_fields_extract (m fs fl : Z) :
  0 <= fs <= 0x7fff -> 0 <= fl <= 0x7fff ->
  let value :=
    Z.lor (Z.lor (Z.land m 0xffff8000ffff8000) (wrap64 (Z.shiftl fs 32))) fl in
  Z.land (Z.shiftr value 32) 0x7fff = fs /\ Z.land value 0x7fff = fl.
Proof.
  intros Hs Hl. cbv zeta.
  assert (Hw : wrap64 (Z.shiftl fs 32) = Z.shiftl fs 32).
  { unfold wrap64. rewrite Z.shiftl_mul_pow2 by lia. apply Z.mod_small. lia. }
  rewrite Hw. split.
  - rewrite !Z.shiftr_lor, !Z.land_lor_distr_l.
    rewrite Z.shiftr_land, <- Z.land_assoc.
    change (Z.land (Z.shiftr 0xffff8000ffff8000 32) 0x7fff) with 0.
    rewrite Z.land_0_r, Z.lor_0_l.
    rewrite Z.shiftr_shiftl_l by lia. change (32 - 32) with 0.
    rewrite Z.shiftl_0_r.
    rewrite (Z.shiftr_div_pow2 fl) by lia.
    rewrite (Z.div_small fl) by lia.
    rewrite Z.land_0_l, Z.lor_0_r. apply low15. assumption.
  - rewrite !Z.land_lor_distr_l, <- Z.land_assoc.
    change (Z.land 0xffff8000ffff8000 0x7fff) with 0.
    rewrite Z.land_0_r, Z.lor_0_l.
    replace (Z.land (Z.shiftl fs 32) 32767) with 0.
    + rewrite Z.lor_0_l. apply low15. assumption.
    + symmetry. change 32767 with (Z.ones 15). rewrite Z.land_ones by lia.
      rewrite Z.shiftl_mul_pow2 by lia.
      change (2 ^ 32) with (2 ^ 17 * 2 ^ 15).
      rewrite Z.mul_assoc. apply Z.mod_mul. lia.
Qed.

(** C1: in the value a power-limit write splices together (line 188),
    the 15-bit short-term field (bits 32-46) and long-term field (bits
    0-14) hold the field of the specification, [clamp_spec], for every
    request up to the maximum [0x7fff / power_unit]: 0 below zero, the
    watts multiplied by [power_unit] in range.  For a request above the
    maximum they hold the maximum in watts, not multiplied by
    [power_unit] (lines 183, 186): under a power unit above 1 that is
    below the field of the specification, and reads back as fewer watts
    than the maximum. *)
Theorem power_limit_clamp_above_maximum (power : power_limit_t)
    (msr_limit power_unit : Z) :
  0 < power_unit <= 0x7fff ->
  - 2 ^ 31 <= short_term power < 2 ^ 31 ->
  - 2 ^ 31 <= long_term power < 2 ^ 31 ->
  let value := power_limit_fields power msr_limit power_unit in
  clamp_outcome (short_term power) power_unit
                (Z.land (Z.shiftr value 32) 0x7fff) /\
  clamp_outcome (long_term power) power_unit (Z.land value 0x7fff).
Proof.
  intros Hu Hs Hl. cbv zeta. unfold power_limit_fields.
  destruct (power_clamp_cases (short_term power) power_unit ltac:(lia) Hs)
    as [_ Bs].
  destruct (power_clamp_cases (long_term power) power_unit ltac:(lia) Hl)
    as [_ Bl].
  destruct (power_fields_extract msr_limit _ _ Bs Bl) as [Es El].
  rewrite Es, El. split; apply power_clamp_outcome; assumption.
Qed.

Lemma power_limit_clamp_above_maximum_witness :
  clamp_outcome 5000 8
    (Z.land (Z.shiftr (power_limit_fields clamp_request 0x4280c800dd80c8 8)
                      32) 0x7fff) /\
  clamp_outcome (-3) 8
    (Z.land (power_limit_fields clamp_request 0x4280c800dd80c8 8) 0x7fff).
Proof.
  apply (power_limit_clamp_above_maximum clamp_request 0x4280c800dd80c8 8).
  - lia.
  - cbn. lia.
  - cbn. lia.
Defined.

(** The clamp at a power unit of 8, either side of the maximum of
    4095 W: 4095 W gives the field 32760, 4096 W and 5000 W give 4095. *)
Example power_clamp_around_maximum :
  power_clamp 4095 8 = 32760 /\ power_clamp 4096 8 = 4095 /\
  power_clamp 5000 8 = 4095 /\
  clamp_spec 4095 8 = 32760 /\ clamp_spec 4096 8 = 32760 /\
  clamp_spec 5000 8 = 32760.
Proof. repeat split; reflexivity. Qed.

(** A request of 5000 W under a power unit of 8, on a domain reached
    through the register file: the write succeeds and the report shows
    511 W. *)
Example power_limit_above_maximum_report :
  exists sw lw,
    power_limit_domain (lm := ref_libm) (P := sim_platform)
      clamp_request register_domain true
      (sim_state register_world (Some false))
    = (true,
       {| dev := dev (snd (power_limit_domain (lm := ref_libm)
                             (P := sim_platform) clamp_request
                             register_domain true
                             (sim_state register_world (Some false))));
          nl := Some true;
          out := [PowerShort "package" 511 sw true;
                  PowerLong "package" 0 lw true];
          log := [MsrRead 0x610; MsrRead 0x606;
                  MsrWrite 0x610 0x00428fff00dd8000] |}).
Proof. do 2 eexists. vm_compute. reflexivity. Qed.

(** ** Time windows *)

Lemma exact_ratio_ge (a u : Z) :
  (inject_Z (2 ^ 31) <= to_Q (Fin a) * inject_Z u / (7 # 4))%Q ->
  7 * 2 ^ 178 <= a * u.
Proof.
  unfold to_Q, Qdiv, Qmult, Qinv, Qle, inject_Z. cbn [Qnum Qden].
  change (Qnum (7 # 4)) with 7. cbv iota. cbn [Qnum Qden].
  intros H.
  rewrite !Pos2Z.inj_mul in H.
  rewrite Z2Pos.id in H by reflexivity.
  change (Z.pos 1) with 1 in H. change (Z.pos 7) with 7 in H.
  change (Z.pos 4) with 4 in H.
  change (2 ^ 178) with (2 ^ 29 * scale).
  assert (0 < scale) by reflexivity.
  change (2 ^ 31) with 2147483648 in H. change (2 ^ 29) with 536870912. nia.
Qed.

Section Saturation.
Context {lm : LibM} {spec : LibMSpec lm}.

Lemma log2f_ge_31 (x : float) :
  in_range x -> fle (Fin (2 ^ 180)) x = true ->
  fle (of_Z 0x1f) (log2f x) = true.
Proof.
  destruct x as [n|[]|]; cbn [fle in_range]; try discriminate.
  - intros R H%Z.leb_le. apply (log2f_lower n 180); lia.
  - intros _ _. rewrite log2f_inf. reflexivity.
Qed.

(** The test of line 106 holds as soon as [seconds * time_unit / 1.75],
    in exact arithmetic, reaches 2^31. *)
Lemma saturation_test_exact (a time_unit : Z) :
  0 < time_unit <= 2 ^ 24 -> 7 * 2 ^ 178 <= a * time_unit ->
  fle (of_Z 0x1f)
      (log2f (fdiv (fmul (Fin a) (of_Z time_unit)) c_1_75f)) = true.
Proof.
  intros Hu Ha.
  apply log2f_ge_31; [apply fdiv_in_range|].
  assert (Hm : fle (Fin (7 * 2 ^ 178)) (fmul (Fin a) (of_Z time_unit)) = true).
  { destruct (Z.eq_dec time_unit (2 ^ 24)) as [->|Hne].
    - change (of_Z (2 ^ 24)) with (Fin (2 ^ 24 * scale)). unfold fmul.
      apply round32_ge with 178; [reflexivity | | ].
      + repeat split; try lia. exists 7. reflexivity.
      + assert (0 < scale) by reflexivity. nia.
    - rewrite of_Z_exact by lia. unfold fmul.
      apply round32_ge with 178; [reflexivity | | ].
      + repeat split; try lia. exists 7. reflexivity.
      + assert (0 < scale) by reflexivity. nia. }
  destruct (fmul (Fin a) (of_Z time_unit)) as [n|[]|]; cbn [fle] in Hm;
    try discriminate; [|reflexivity].
  apply Z.leb_le in Hm. unfold fdiv. change c_1_75f with (Fin (7 * 2 ^ 147)).
  change (7 * 2 ^ 147 =? 0) with false. cbv iota.
  change (Z.sgn (7 * 2 ^ 147)) with 1. change (Z.abs (7 * 2 ^ 147)) with (7 * 2 ^ 147).
  apply round32_ge with 180; [reflexivity | | ].
  - repeat split; try lia. exists 1. reflexivity.
  - unfold scale. lia.
Qed.

(** C4: [power_from_seconds] returns the sentinel 0xfe whenever the test
    of line 106 holds, log2f(seconds * time_unit / 1.75f) >= 31 as the
    program computes it, and also whenever [seconds * time_unit / 1.75]
    reaches 2^31 in exact arithmetic (for a time unit that converts to
    [float] exactly). *)
Theorem power_from_seconds_saturates (seconds : float) (time_unit : Z) :
  fle (of_Z 0x1f)
      (log2f (fdiv (fmul seconds (of_Z time_unit)) c_1_75f)) = true \/
  (is_finite seconds = true /\ 0 < time_unit <= 2 ^ 24 /\
   (inject_Z (2 ^ 31) <= to_Q seconds * inject_Z time_unit / (7 # 4))%Q) ->
  power_from_seconds seconds time_unit = 0xfe.
Proof.
  intros H. unfold power_from_seconds.
  assert (T : fle (of_Z 0x1f)
                (log2f (fdiv (fmul seconds (of_Z time_unit)) c_1_75f))
              = true).
  { destruct H as [H|(Hf & Hu & Hq)]; [exact H|].
    destruct seconds as [a| |]; try discriminate Hf.
    apply saturation_test_exact; [exact Hu|].
    apply exact_ratio_ge. exact Hq. }
  rewrite T. reflexivity.
Qed.

(** [log2f] between the exponents of two consecutive powers of two. *)
Lemma log2f_bracket (v k : Z) :
  0 <= k < 276 -> 2 ^ k <= v <= 2 ^ (k + 1) ->
  exists l, log2f (Fin v) = Fin l /\
            (k - 149) * scale <= l <= (k + 1 - 149) * scale.
Proof.
  intros Hk [Hl Hu].
  assert (0 < 2 ^ k) by (apply Z.pow_pos_nonneg; lia).
  assert (2 ^ (k + 1) < 2 ^ 277) by (apply Z.pow_lt_mono_r; lia).
  pose proof (log2f_lower v k ltac:(lia) ltac:(lia)) as L.
  pose proof (log2f_upper v (k + 1) ltac:(lia) ltac:(lia)) as U.
  rewrite of_Z_exact in L, U by (change (2 ^ 24) with 16777216; lia).
  destruct (log2f (Fin v)) as [l|[]|]; cbn [fle] in L, U; try discriminate.
  apply Z.leb_le in L, U. exists l. split; [reflexivity|lia].
Qed.

Lemma flt_pos_nonpos c x :
  0 < c -> fle x (Fin 0) = true -> flt (Fin c) x = false.
Proof.
  intros Hc. destruct x as [n|[]|]; cbn; try congruence.
  rewrite Z.leb_le. intros. apply Z.ltb_ge. lia.
Qed.

(** A turn of the loop on a candidate in [1/8, 1/4]: the exponent is
    -3 or -2, never rounded up, and the packed result is negative. *)
Lemma power_from_seconds_step_small seconds time_unit st i v :
  0 <= i <= 3 ->
  fdiv (fmul seconds (of_Z time_unit)) (fadd (of_Z 1) (fdiv (of_Z i) c_4f))
    = Fin v ->
  2 ^ 146 <= v <= 2 ^ 147 ->
  let r := snd (power_from_seconds_step seconds time_unit st i) in
  r = snd st \/ r = -4 \/ r = -6.
Proof.
  intros Hi Ev Hv. destruct st as [last_diff last_result].
  unfold power_from_seconds_step. rewrite Ev.
  destruct (log2f_bracket v 146 ltac:(lia) Hv) as (l & -> & Hl).
  assert (Hs : 0 < scale) by reflexivity.
  assert (Hq : Z.quot l scale = -3 \/ Z.quot l scale = -2).
  { replace l with (- - l) by lia. rewrite Z.quot_opp_l by lia.
    rewrite Z.quot_div_nonneg by lia.
    assert (2 <= - l / scale) by (apply Z.div_le_lower_bound; lia).
    assert (- l / scale < 4) by (apply Z.div_lt_upper_bound; lia).
    destruct (Z.eq_dec (- l / scale) 3) as [E|E]; [left|right]; lia. }
  assert (Hrem : l - Z.quot l scale * scale <= 0).
  { pose proof (Z.quot_rem' l scale) as E.
    pose proof (Z.rem_nonpos l scale ltac:(lia) ltac:(lia)). lia. }
  unfold to_int.
  set (e := wrap_int (Z.quot l scale)).
  assert (He : e = Z.quot l scale) by (destruct Hq as [E|E]; subst e; rewrite E; reflexivity).
  assert (Hd : fle (fsub (Fin l) (of_Z e)) (Fin 0) = true).
  { rewrite of_Z_exact by (change (2 ^ 24) with 16777216; lia).
    unfold fsub, fneg, fadd.
    apply round32_le with 0; [lia | apply on_grid_0 | lia]. }
  change c_0_5f with (Fin (2 ^ 148)).
  rewrite (flt_pos_nonpos (2 ^ 148) _ ltac:(reflexivity) Hd), andb_false_r.
  cbv zeta.
  destruct ((e <? 32) && flt (fsub (Fin l) (of_Z e)) last_diff);
    [right | left; reflexivity].
  cbn [snd]. rewrite He.
  assert (i = 0 \/ i = 1 \/ i = 2 \/ i = 3) as [->|[->|[->| ->]]] by lia;
    destruct Hq as [-> | ->]; vm_compute; auto.
Qed.

Lemma log2f_quarter : log2f (Fin (2 ^ 147)) = Fin (-2 * scale).
Proof.
  destruct (log2f_bracket (2 ^ 147) 146 ltac:(lia) ltac:(lia)) as (l & E & B).
  destruct (log2f_bracket (2 ^ 147) 147 ltac:(lia) ltac:(lia)) as (l' & E' & B').
  rewrite E in E'. injection E' as <-. rewrite E. f_equal. lia.
Qed.

End Saturation.

Ltac candidate_small st i :=
  let x := eval vm_compute in
    (fdiv (fmul (of_Q (1 # 4096)) (of_Z 1024))
          (fadd (of_Z 1) (fdiv (of_Z i) c_4f))) in
  match x with
  | Fin ?v =>
      destruct (power_from_seconds_step_small (of_Q (1 # 4096)) 1024 st i v
                  ltac:(lia) ltac:(vm_compute; reflexivity) ltac:(lia))
        as [H|H]
  end.

Section BelowGrid.
Context {lm : LibM} {spec : LibMSpec lm}.

(** A window of 1/4096 s with the usual time unit of 1/1024 s: a
    quarter of the least value of the grid. *)
Lemma power_from_seconds_quarter :
  power_from_seconds (of_Q (1 # 4096)) 1024 = -4 \/
  power_from_seconds (of_Q (1 # 4096)) 1024 = -6.
Proof.
  unfold power_from_seconds.
  set (x := fdiv (fmul (of_Q (1 # 4096)) (of_Z 1024)) c_1_75f).
  vm_compute in x. subst x.
  match goal with |- context [log2f (Fin ?v)] =>
    destruct (log2f_bracket v 146 ltac:(lia) ltac:(lia)) as (l & E & B)
  end.
  rewrite E. change (of_Z 31) with (Fin (31 * scale)). cbn [fle].
  destruct (Z.leb_spec (31 * scale) l) as [H|_].
  { exfalso. assert (0 < scale) by reflexivity. lia. }
  cbn [fold_left].
  set (s0 := power_from_seconds_step (of_Q (1 # 4096)) 1024 (c_1f, 0) 0).
  assert (H0 : snd s0 = -4).
  { subst s0. unfold power_from_seconds_step.
    change (fdiv (fmul (of_Q (1 # 4096)) (of_Z 1024))
                 (fadd (of_Z 1) (fdiv (of_Z 0) c_4f)))
      with (Fin (2 ^ 147)).
    rewrite log2f_quarter. reflexivity. }
  set (s1 := power_from_seconds_step (of_Q (1 # 4096)) 1024 s0 1).
  assert (H1 : snd s1 = -4 \/ snd s1 = -6).
  { candidate_small s0 1; fold s1 in H; lia. }
  set (s2 := power_from_seconds_step (of_Q (1 # 4096)) 1024 s1 2).
  assert (H2 : snd s2 = -4 \/ snd s2 = -6).
  { candidate_small s1 2; fold s2 in H; lia. }
  candidate_small s2 3; lia.
Qed.

(** C3, evaluated below the grid: for a window of 1/4096 s and a time
    unit of 1/1024 s, which does not saturate, [power_from_seconds]
    returns the negative number -4 or -6, not a field, and
    [power_to_seconds] turns it into more than 917504 s. *)
Theorem power_from_seconds_below_grid :
  let field := power_from_seconds (of_Q (1 # 4096)) 1024 in
  (field = -4 \/ field = -6) /\
  fle (of_Z 917504) (power_to_seconds field 1024) = true.
Proof.
  cbv zeta.
  destruct power_from_seconds_quarter as [E|E]; rewrite E;
    (split; [auto|]); unfold power_to_seconds.
  - change (Z.land (Z.shiftr (-4) 1) 31) with 30.
    rewrite exp2f_int by lia. reflexivity.
  - change (Z.land (Z.shiftr (-6) 1) 31) with 29.
    rewrite exp2f_int by lia. reflexivity.
Qed.

(** C5, evaluated below the grid: with a short-term window of 1/4096 s
    and a time unit of 1/1024 s, the value a power-limit write computes
    has bit 63, the lock bit, set, whatever the value read before. *)
Theorem power_limit_value_sets_lock (power : power_limit_t)
    (msr_limit power_unit : Z) :
  short_time_window power = of_Q (1 # 4096) ->
  long_time_window power = Fin 0 ->
  Z.testbit (power_limit_value power msr_limit power_unit 1024) 63 = true.
Proof.
  intros Hs Hl. unfold power_limit_value, power_limit_windows.
  rewrite Hs, Hl.
  change (flt (of_Z 0) (of_Q (1 # 4096))) with true.
  change (flt (of_Z 0) (Fin 0)) with false. cbv iota.
  rewrite Z.lor_spec.
  destruct power_from_seconds_quarter as [E|E]; rewrite E;
    apply orb_true_r.
Qed.

End BelowGrid.

Lemma power_from_seconds_saturates_witness :
  power_from_seconds (lm := ref_libm) (of_Z 4000000) 1024 = 0xfe.
Proof.
  apply (power_from_seconds_saturates (lm := ref_libm) (spec := ref_libm_spec)
           (of_Z 4000000) 1024).
  right. split; [reflexivity|]. split; [lia|].
  vm_compute. discriminate.
Defined.

Lemma power_from_seconds_below_grid_witness :
  (power_from_seconds (lm := ref_libm) (of_Q (1 # 4096)) 1024 = -4 \/
   power_from_seconds (lm := ref_libm) (of_Q (1 # 4096)) 1024 = -6) /\
  fle (of_Z 917504)
      (power_to_seconds (lm := ref_libm)
         (power_from_seconds (lm := ref_libm) (of_Q (1 # 4096)) 1024) 1024)
  = true.
Proof.
  exact (power_from_seconds_below_grid (lm := ref_libm)
           (spec := ref_libm_spec)).
Defined.

Lemma power_limit_value_sets_lock_witness :
  Z.testbit 0x4280c800dd80c8 63 = false /\
  Z.testbit (power_limit_value (lm := ref_libm) short_window_request
               0x4280c800dd80c8 8 1024) 63 = true.
Proof.
  split; [reflexivity|].
  apply (power_limit_value_sets_lock (lm := ref_libm) (spec := ref_libm_spec)
           short_window_request 0x4280c800dd80c8 8); reflexivity.
Defined.

(** *** Windows on the grid *)

Lemma pack_window_field (i e : Z) :
  0 <= i <= 3 -> 0 <= e <= 31 ->
  window_field (wrap_int (Z.lor (Z.shiftl i 6) (Z.shiftl e 1))).
Proof.
  intros Hi He.
  assert (A : forallb (fun i => forallb (pack_ok (Z.of_nat i)) 
                        (map Z.of_nat (seq 0 32))) (seq 0 4) = true)
    by (vm_compute; reflexivity).
  rewrite forallb_forall in A.
  specialize (A (Z.to_nat i) ltac:(apply in_seq; lia)).
  rewrite forallb_forall in A.
  specialize (A e). rewrite Z2Nat.id in A by lia.
  assert (In e (map Z.of_nat (seq 0 32))).
  { rewrite <- (Z2Nat.id e) by lia. apply in_map. apply in_seq. lia. }
  specialize (A H). unfold pack_ok in A.
  apply andb_prop in A as [A E]. apply andb_prop in A as [L U].
  split; [|exact E]. apply Z.leb_le in L, U. lia.
Qed.

Lemma multiplier_value (i : Z) :
  0 <= i <= 3 ->
  exists m, fadd (of_Z 1) (fdiv (of_Z i) c_4f) = Fin m /\
            scale <= m <= 7 * 2 ^ 147.
Proof.
  intros Hi.
  assert (i = 0 \/ i = 1 \/ i = 2 \/ i = 3) as [->|[->|[->| ->]]] by lia;
    eexists; (split; [vm_compute; reflexivity|]); vm_compute;
    split; discriminate.
Qed.

Lemma window_field_bits f : window_field f -> Z.land f 0xfe = f.
Proof.
  intros [Hr He].
  destruct (Z.even_spec f) as [E _]. destruct (E He) as [h ->].
  change 0xfe with (Z.shiftl (Z.ones 7) 1).
  replace (2 * h) with (Z.shiftl h 1) by (rewrite Z.shiftl_mul_pow2; lia).
  rewrite <- Z.shiftl_land, Z.land_ones by lia.
  rewrite Z.mod_small; [reflexivity|].
  change (2 ^ 7) with 128. lia.
Qed.

(** A field shifted into place meets no bit of a mask that is clear
    over the place. *)
Lemma placed_field_disjoint (f full k c : Z) :
  0 <= f -> 0 <= k -> Z.land f full = f -> f * 2 ^ k < 2 ^ 64 ->
  Z.land (Z.shiftl full k) c = 0 ->
  Z.land (wrap64 (Z.shiftl f k)) c = 0.
Proof.
  intros Hf Hk Hsub Hfit Hc.
  assert (Hw : wrap64 (Z.shiftl f k) = Z.shiftl f k).
  { unfold wrap64. rewrite Z.shiftl_mul_pow2 by lia.
    apply Z.mod_small. split; [|assumption].
    apply Z.mul_nonneg_nonneg; [assumption|]. apply Z.pow_nonneg. lia. }
  rewrite Hw, <- Hsub, Z.shiftl_land, <- Z.land_assoc, Hc.
  apply Z.land_0_r.
Qed.

Section WindowField.
Context {lm : LibM} {spec : LibMSpec lm}.

Lemma power_from_seconds_step_field seconds time_unit st i x :
  0 <= i <= 3 ->
  fmul seconds (of_Z time_unit) = Fin x ->
  7 * 2 ^ 147 <= x < 7 * 2 ^ 178 ->
  window_field (snd st) ->
  window_field (snd (power_from_seconds_step seconds time_unit st i)).
Proof.
  intros Hi Ex Hx Hst. destruct st as [last_diff last_result].
  unfold power_from_seconds_step. rewrite Ex.
  destruct (multiplier_value i Hi) as (m & -> & Hm).
  assert (Hs : scale = 2 ^ 149) by reflexivity.
  assert (Hv : exists v, fdiv (Fin x) (Fin m) = Fin v /\
                         scale <= v <= 7 * 2 ^ 178).
  { unfold fdiv. destruct (Z.eqb_spec m 0); [lia|].
    rewrite Z.sgn_pos, Z.abs_eq, Z.mul_1_l by lia.
    pose proof (round32_ge (x * scale) m scale 149 ltac:(lia)) as L.
    pose proof (round32_le (x * scale) m (7 * 2 ^ 178) 178 ltac:(lia)) as U.
    assert (on_grid scale 149).
    { repeat split; try lia. exists 1. rewrite Hs. lia. }
    assert (on_grid (7 * 2 ^ 178) 178).
    { repeat split; try lia. exists 7. reflexivity. }
    specialize (L H ltac:(nia)). specialize (U H0 ltac:(nia)).
    destruct (round32 (x * scale) m) as [v|[]|]; cbn [fle] in L, U;
      try discriminate.
    apply Z.leb_le in L, U. exists v. split; [reflexivity|lia]. }
  destruct Hv as (v & -> & Hv).
  assert (Hl : exists l, log2f (Fin v) = Fin l /\ 0 <= l <= 32 * scale).
  { pose proof (log2f_lower v 149 ltac:(lia) ltac:(rewrite <- Hs; lia)) as L.
    pose proof (log2f_upper v 181 ltac:(lia) ltac:(lia)) as U.
    change (of_Z (149 - 149)) with (Fin 0) in L.
    change (of_Z (181 - 149)) with (Fin (32 * scale)) in U.
    destruct (log2f (Fin v)) as [l|[]|]; cbn [fle] in L, U; try discriminate.
    apply Z.leb_le in L, U. exists l. split; [reflexivity|lia]. }
  destruct Hl as (l & -> & Hl).
  assert (He : 0 <= Z.quot l scale <= 32).
  { rewrite Z.quot_div_nonneg by lia. split; [apply Z.div_pos; lia|].
    apply Z.div_le_upper_bound; lia. }
  unfold to_int.
  assert (Hw : wrap_int (Z.quot l scale) = Z.quot l scale).
  { unfold wrap_int. rewrite Z.mod_small; lia. }
  rewrite Hw. set (e := Z.quot l scale) in *.
  destruct ((e <? 25) && flt c_0_5f (fsub (Fin l) (of_Z e))) eqn:Hup.
  - apply andb_prop in Hup as [Hlt _]. apply Z.ltb_lt in Hlt.
    assert (Hw' : wrap_int (e + 1) = e + 1).
    { unfold wrap_int. rewrite Z.mod_small; lia. }
    rewrite Hw'.
    destruct ((e + 1 <? 32) && flt (fsub c_1f (fsub (Fin l) (of_Z e)))
                                   last_diff); [|exact Hst].
    cbn [snd]. apply pack_window_field; lia.
  - destruct (Z.ltb_spec e 32); cbn [andb]; [|exact Hst].
    destruct (flt (fsub (Fin l) (of_Z e)) last_diff); [|exact Hst].
    cbn [snd]. apply pack_window_field; lia.
Qed.

(** From 1.75 time units on, the result is a field of the register. *)
Lemma power_from_seconds_field (seconds : float) (time_unit : Z) :
  fle c_1_75f (fmul seconds (of_Z time_unit)) = true ->
  window_field (power_from_seconds seconds time_unit).
Proof.
  intros H. unfold power_from_seconds.
  destruct (fle (of_Z 31)
              (log2f (fdiv (fmul seconds (of_Z time_unit)) c_1_75f))) eqn:T.
  { split; [lia|reflexivity]. }
  change c_1_75f with (Fin (7 * 2 ^ 147)) in H.
  destruct (fmul seconds (of_Z time_unit)) as [x|[]|] eqn:Ex;
    cbn [fle negb] in H.
  2, 4: discriminate H.
  - apply Z.leb_le in H.
    assert (Hx : x < 7 * 2 ^ 178).
    { destruct (Z.lt_ge_cases x (7 * 2 ^ 178)) as [|Hge]; [assumption|].
      exfalso.
      rewrite log2f_ge_31 in T; [discriminate T|apply fdiv_in_range|].
      unfold fdiv. change c_1_75f with (Fin (7 * 2 ^ 147)).
      change (7 * 2 ^ 147 =? 0) with false. cbv iota.
      change (Z.sgn (7 * 2 ^ 147)) with 1.
      change (Z.abs (7 * 2 ^ 147)) with (7 * 2 ^ 147).
      apply round32_ge with 180; [reflexivity| |].
      - repeat split; try lia. exists 1. reflexivity.
      - unfold scale. lia. }
    cbn [fold_left].
    do 4 (apply power_from_seconds_step_field with x;
          [lia | exact Ex | lia |]).
    cbn [snd]. split; [lia|reflexivity].
  - change c_1_75f with (Fin (7 * 2 ^ 147)) in T.
    cbn [fdiv] in T. change (xorb false (7 * 2 ^ 147 <? 0)) with false in T.
    rewrite log2f_inf in T. change (of_Z 31) with (Fin (31 * scale)) in T.
    cbn [fle negb] in T. discriminate T.
Qed.

Lemma window_placed_disjoint (w : float) (time_unit k c : Z) :
  fle c_1_75f (fmul w (of_Z time_unit)) = true ->
  0 <= k <= 48 -> Z.land (Z.shiftl 0xfe k) c = 0 ->
  Z.land (wrap64 (Z.shiftl (wrap64 (power_from_seconds w time_unit)) k)) c
  = 0.
Proof.
  intros Hw Hk Hc.
  pose proof (power_from_seconds_field w time_unit Hw) as F.
  pose proof F as [Hr _].
  assert (E : wrap64 (power_from_seconds w time_unit)
              = power_from_seconds w time_unit).
  { unfold wrap64. apply Z.mod_small. lia. }
  rewrite E.
  apply placed_field_disjoint with 0xfe;
    [lia | lia | apply window_field_bits; exact F | | exact Hc].
  assert (2 ^ k <= 2 ^ 48) by (apply Z.pow_le_mono_r; lia).
  assert (0 < 2 ^ k) by (apply Z.pow_pos_nonneg; lia).
  change (2 ^ 64) with (2 ^ 16 * 2 ^ 48). nia.
Qed.

End WindowField.

Ltac fold_masks :=
  repeat match goal with
    | |- context [Z.land (Zpos ?a) (Zpos ?b)] =>
        let v := eval vm_compute in (Z.land (Zpos a) (Zpos b)) in
        change (Z.land (Zpos a) (Zpos b)) with v
    end.

Section Frame.
Context {lm : LibM} {spec : LibMSpec lm}.

(** The frame of a power-limit write whose positive windows are of 1.75
    time units or more: the value to write agrees with the value read on
    every bit of [preserved_mask], among them the enable flags (bits 47
    and 15) and the lock bit (bit 63). *)
Theorem power_limit_frame (power : power_limit_t)
    (msr_limit power_unit time_unit : Z) :
  0 < power_unit ->
  - 2 ^ 31 <= short_term power < 2 ^ 31 ->
  - 2 ^ 31 <= long_term power < 2 ^ 31 ->
  (flt (of_Z 0) (short_time_window power) = true ->
   fle c_1_75f (fmul (short_time_window power) (of_Z time_unit)) = true) ->
  (flt (of_Z 0) (long_time_window power) = true ->
   fle c_1_75f (fmul (long_time_window power) (of_Z time_unit)) = true) ->
  Z.land (power_limit_value power msr_limit power_unit time_unit)
         (preserved_mask power)
  = Z.land msr_limit (preserved_mask power).
Proof.
  intros Hu Hs Hl Wshort Wlong.
  unfold power_limit_value, power_limit_windows, power_limit_fields,
    preserved_mask.
  destruct (power_clamp_cases (short_term power) power_unit Hu Hs) as [_ Bs].
  destruct (power_clamp_cases (long_term power) power_unit Hu Hl) as [_ Bl].
  set (fs := power_clamp (short_term power) power_unit) in *.
  set (fl := power_clamp (long_term power) power_unit) in *.
  assert (Dl : forall c, Z.land 0x7fff c = 0 -> Z.land fl c = 0).
  { intros c Hc. rewrite <- (low15 fl Bl), <- Z.land_assoc, Hc.
    apply Z.land_0_r. }
  assert (Ds : forall c, Z.land (Z.shiftl 0x7fff 32) c = 0 ->
                         Z.land (wrap64 (Z.shiftl fs 32)) c = 0).
  { intros c Hc. apply placed_field_disjoint with 0x7fff;
      [lia | lia | apply low15; exact Bs | lia | exact Hc]. }
  destruct (flt (of_Z 0) (short_time_window power)) eqn:Es;
    destruct (flt (of_Z 0) (long_time_window power)) eqn:El;
    try specialize (Wshort eq_refl); try specialize (Wlong eq_refl);
    rewrite ?Z.land_lor_distr_l, <- ?Z.land_assoc; fold_masks;
    repeat match goal with
      | |- context [Z.land fl ?c] => rewrite (Dl c eq_refl)
      | |- context [Z.land (wrap64 (Z.shiftl fs 32)) ?c] =>
          rewrite (Ds c eq_refl)
      | |- context [Z.land (wrap64 (Z.shiftl (wrap64 (power_from_seconds
                                                        ?w ?u)) ?k)) ?c] =>
          rewrite (window_placed_disjoint w u k c ltac:(assumption)
                     ltac:(lia) eq_refl)
      end;
    rewrite ?Z.lor_0_r; reflexivity.
Qed.

End Frame.

(** ** The appliers *)

Section ApplierFacts.
Context {lm : LibM} {P : Platform}.

Lemma NEW_LINE_dev nll s : dev (snd (NEW_LINE nll s)) = dev s.
Proof. unfold NEW_LINE. destruct (nl s), nll; reflexivity. Qed.

Lemma NEW_LINE_log nll s : log (snd (NEW_LINE nll s)) = log s.
Proof. unfold NEW_LINE. destruct (nl s), nll; reflexivity. Qed.

Lemma NEW_LINE_nl_null nll s :
  nl s = None <-> nl (snd (NEW_LINE nll s)) = None.
Proof.
  unfold NEW_LINE. destruct (nl s) eqn:E, nll; cbn; rewrite ?E;
    split; congruence.
Qed.

Lemma NEW_LINE_out nll s :
  out (snd (NEW_LINE nll s)) = out s \/
  out (snd (NEW_LINE nll s)) = out s ++ [Newline].
Proof.
  unfold NEW_LINE. destruct (nl s) as [[]|], nll; cbn; auto.
Qed.

Lemma printf_log l s : log (printf l s) = log s.
Proof. reflexivity. Qed.

Lemma do_wr_out a v s : out (snd (do_wr a v s)) = out s.
Proof. unfold do_wr. destruct (wr (dev s) a v). reflexivity. Qed.

Lemma do_rd_out a s : out (snd (do_rd a s)) = out s.
Proof. unfold do_rd. destruct (rd (dev s) a). reflexivity. Qed.

(** C10: when the write phase of [tjoffset] leaves [errstr] null (the
    write succeeded or was not requested), the report is requested and
    the re-read of the temperature register fails, [tjoffset] returns
    true and the line it prints carries the null [errstr], not the
    description of the system error. *)
Theorem tjoffset_report_read_failure (config : config_t) (write : bool)
    (s s1 : state) (w : world) :
  tjoffset_apply config = true ->
  tjoffset_write config write s = (None, s1) ->
  nl s1 <> None ->
  rd (dev s1) MSR_ADDR_TEMPERATURE = (None, w) ->
  fst (tjoffset config write s) = true /\
  out (snd (tjoffset config write s))
    = out (snd (NEW_LINE false s1)) ++ [TempReadFailed None].
Proof.
  intros Ha Hw Hnl Hrd. unfold tjoffset. rewrite Ha, Hw.
  destruct (NEW_LINE false s1) as [nll s2] eqn:E.
  assert (Hd : dev s2 = dev s1) by (rewrite <- (NEW_LINE_dev false s1), E; reflexivity).
  assert (Hn : nl s2 <> None).
  { intros C. apply Hnl. apply (NEW_LINE_nl_null false s1). rewrite E. exact C. }
  destruct (nl s2) as [b|]; [|congruence].
  unfold do_rd. rewrite Hd, Hrd. cbn. split; reflexivity.
Qed.

(** C8, amended: for a domain with neither address, [power_limit]
    returns false and its only access is the read of the units
    register; the message is "No method available" when that read
    succeeds and the system error description when it fails. *)
Theorem power_limit_no_method (power : power_limit_t)
    (domain : power_domain_t) (write : bool) (s : state) :
  apply power = true -> msr_addr domain = 0 -> mem_addr domain = 0 ->
  let r := power_limit_domain power domain write s in
  fst r = false /\
  log (snd r) = log s ++ [MsrRead MSR_ADDR_UNITS] /\
  exists pre,
    out (snd r)
    = pre ++ [PowerReadFailed (name domain)
                (Some match rd (dev s) MSR_ADDR_UNITS with
                      | (Some _, _) => "No method available"%string
                      | (None, w) => strerror_errno w
                      end)].
Proof.
  intros Ha Hm Hp. unfold power_limit_domain.
  rewrite Ha, Hm, Hp. cbn [Z.eqb andb]. unfold do_rd.
  destruct (rd (dev s) MSR_ADDR_UNITS) as [[u|] w]; cbn [option_map];
    match goal with
    | |- context [NEW_LINE false ?s1] =>
        pose proof (NEW_LINE_log false s1) as L;
        destruct (NEW_LINE false s1) as [nll s2]
    end; cbn in *; (split; [reflexivity|]); (split; [assumption|]);
    eexists; reflexivity.
Qed.

Lemma power_limit_report_log domain msr_limit pu tu s :
  log (power_limit_report domain msr_limit pu tu s) = log s.
Proof.
  unfold power_limit_report.
  destruct (Z.land (Z.shiftr msr_limit 63) 1 =? 0); reflexivity.
Qed.

Lemma power_limit_finish_log domain e msr pu tu nll s :
  log (snd (power_limit_finish domain e msr pu tu nll s)) = log s.
Proof.
  unfold power_limit_finish.
  pose proof (NEW_LINE_log nll s) as L.
  destruct (NEW_LINE nll s) as [nll' s']. cbn [snd] in L.
  destruct e; [|destruct (nl s')]; cbn [snd];
    rewrite ?power_limit_report_log, ?printf_log; assumption.
Qed.

Lemma power_limit_apply_memory_only power domain mem write nll
    msr_limit mem_limit units s :
  msr_addr domain = 0 ->
  exists l, log (snd (power_limit_apply power domain mem write nll
                        msr_limit mem_limit units s)) = log s ++ l /\
            Forall (memory_path_access mem) l.
Proof.
  intros Hm. unfold power_limit_apply. rewrite Hm. cbn [Z.eqb].
  destruct write.
  - destruct (mem_addr domain =? 0).
    + exists []. rewrite power_limit_finish_log, app_nil_r.
      split; [reflexivity|constructor].
    + unfold do_safe_rw_write.
      destruct (safe_rw_write (dev s) mem _) as [[] w];
        rewrite power_limit_finish_log; cbn [log];
        (eexists; split; [reflexivity|]);
        (constructor; [|constructor]); right; right; eexists; reflexivity.
  - destruct (negb (msr_limit =? mem_limit)).
    + pose proof (NEW_LINE_log nll s) as L0.
      destruct (NEW_LINE nll s) as [nll0 s0]. cbn [snd] in L0.
      exists []. rewrite power_limit_finish_log, app_nil_r, printf_log.
      split; [assumption|constructor].
    + exists []. rewrite power_limit_finish_log, app_nil_r.
      split; [reflexivity|constructor].
Qed.

(** C9: for a domain with [msr_addr = 0] and a memory address,
    [power_limit] makes no register-file access but the read of the
    units register, and once the memory read and the units read have
    succeeded it continues with the memory value as both [msr_limit]
    and [mem_limit]. *)
Theorem power_limit_memory_only (power : power_limit_t)
    (domain : power_domain_t) (write : bool) (s : state) :
  apply power = true -> msr_addr domain = 0 -> mem_addr domain <> 0 ->
  let mem :=
    match mem power with
    | Some base => Some (base + Z.land (mem_addr domain) MAP_MASK)
    | None => None
    end in
  (exists l, log (snd (power_limit_domain power domain write s)) = log s ++ l
             /\ Forall (memory_path_access mem) l) /\
  (forall m w1 u w2,
     safe_rw_read (dev s) mem = (Some m, w1) ->
     rd w1 MSR_ADDR_UNITS = (Some u, w2) ->
     power_limit_domain power domain write s
     = let '(errstr, s') :=
         power_limit_apply power domain mem write false
           (wrap64 m) (wrap64 m) (wrap64 u)
           {| dev := w2; nl := nl s; out := out s;
              log := (log s ++ [MemRead mem]) ++ [MsrRead MSR_ADDR_UNITS] |} in
       (is_null errstr, s')).
Proof.
  intros Ha Hm Hp. cbv zeta.
  set (mem := match mem power with
              | Some base => Some (base + Z.land (mem_addr domain) MAP_MASK)
              | None => None
              end).
  apply Z.eqb_neq in Hp.
  split.
  - unfold power_limit_domain. fold mem. rewrite Ha, Hm, Hp.
    cbn [Z.eqb andb]. unfold do_safe_rw_read.
    destruct (safe_rw_read (dev s) mem) as [[m|] w1]; cbn [option_map].
    + unfold do_rd. cbn [dev].
      destruct (rd w1 MSR_ADDR_UNITS) as [[u|] w2]; cbn [option_map].
      * match goal with
        | |- context [power_limit_apply ?a ?b ?c ?d ?e ?f ?g ?h ?i] =>
            destruct (power_limit_apply_memory_only a b c d e f g h i Hm)
              as (l & L & F);
            destruct (power_limit_apply a b c d e f g h i) as [e' s']
        end.
        cbn in L |- *. exists ([MemRead mem; MsrRead MSR_ADDR_UNITS] ++ l).
        split.
        -- rewrite L. rewrite <- !app_assoc. reflexivity.
        -- apply Forall_app. split; [|assumption].
           constructor; [left; reflexivity|].
           constructor; [right; left; reflexivity|constructor].
      * match goal with
        | |- context [NEW_LINE false ?s1] =>
            pose proof (NEW_LINE_log false s1) as L;
            destruct (NEW_LINE false s1) as [nll s2]
        end. cbn in L |- *.
        exists [MemRead mem; MsrRead MSR_ADDR_UNITS]. split.
        -- rewrite L, <- app_assoc. reflexivity.
        -- constructor; [left; reflexivity|].
           constructor; [right; left; reflexivity|constructor].
    + match goal with
      | |- context [NEW_LINE false ?s1] =>
          pose proof (NEW_LINE_log false s1) as L;
          destruct (NEW_LINE false s1) as [nll s2]
      end. cbn in L |- *.
      exists [MemRead mem]. split; [assumption|].
      constructor; [left; reflexivity|constructor].
  - intros m w1 u w2 Hr Hu.
    unfold power_limit_domain. fold mem. rewrite Ha, Hm, Hp.
    cbn [Z.eqb andb]. unfold do_safe_rw_read. rewrite Hr. cbn [option_map].
    unfold do_rd. cbn [dev]. rewrite Hu. cbn [option_map]. reflexivity.
Qed.

End ApplierFacts.

Lemma tjoffset_report_read_failure_witness :
  fst (tjoffset tj_config true (sim_state one_read (Some false))) = true /\
  out (snd (tjoffset tj_config true (sim_state one_read (Some false))))
    = [TempReadFailed None].
Proof.
  apply (tjoffset_report_read_failure (P := sim_platform) tj_config true
           (sim_state one_read (Some false))
           (snd (tjoffset_write tj_config true
                   (sim_state one_read (Some false))))
           {| regs := [(0x1a2, 0xa640000); (0x1a2, 0x640000)];
              reads_left := 0; writes_left := 0; latch := true;
              cell := None; last_error := "Input/output error" |}).
  - reflexivity.
  - reflexivity.
  - discriminate.
  - reflexivity.
Defined.

Lemma power_limit_no_method_witness :
  fst (power_limit_domain (lm := ref_libm) (P := sim_platform)
         plain_request no_path true (sim_state dead_reads None)) = false /\
  log (snd (power_limit_domain (lm := ref_libm) (P := sim_platform)
              plain_request no_path true (sim_state dead_reads None)))
  = [] ++ [MsrRead 0x606] /\
  exists pre,
    out (snd (power_limit_domain (lm := ref_libm) (P := sim_platform)
                plain_request no_path true (sim_state dead_reads None)))
    = pre ++ [PowerReadFailed "package"
                (Some "Input/output error"%string)].
Proof.
  apply (power_limit_no_method (lm := ref_libm) (P := sim_platform)
           plain_request no_path true (sim_state dead_reads None));
    reflexivity.
Defined.

(** C8 as stated fails: the units register is read before the check,
    and when that read fails its error is what is reported. *)
Lemma power_limit_no_method_counterexample :
  fst (power_limit_domain (lm := ref_libm) (P := sim_platform)
         plain_request no_path true (sim_state dead_reads None)) = false /\
  out (snd (power_limit_domain (lm := ref_libm) (P := sim_platform)
              plain_request no_path true (sim_state dead_reads None)))
  = [PowerReadFailed "package" (Some "Input/output error"%string)] /\
  ~ In (PowerReadFailed "package" (Some "No method available"%string))
       (out (snd (power_limit_domain (lm := ref_libm) (P := sim_platform)
                    plain_request no_path true
                    (sim_state dead_reads None)))).
Proof.
  split; [reflexivity|]. split; [reflexivity|].
  intros [H|[]]. discriminate H.
Qed.

Lemma power_limit_memory_only_witness :
  (exists l,
     log (snd (power_limit_domain (lm := ref_libm) (P := sim_platform)
                 mapped_request memory_domain true
                 (sim_state mapped_world None))) = [] ++ l
     /\ Forall (memory_path_access (P := sim_platform)
                  (Some (0x7f0000000000 + Z.land 0xfed159a0 0xfff))) l) /\
  (forall m w1 u w2,
     sim_safe_rw_read mapped_world
       (Some (0x7f0000000000 + Z.land 0xfed159a0 0xfff)) = (Some m, w1) ->
     sim_rd w1 0x606 = (Some u, w2) ->
     power_limit_domain (lm := ref_libm) (P := sim_platform)
       mapped_request memory_domain true (sim_state mapped_world None)
     = let '(errstr, s') :=
         power_limit_apply (lm := ref_libm) (P := sim_platform)
           mapped_request memory_domain
           (Some (0x7f0000000000 + Z.land 0xfed159a0 0xfff)) true false
           (wrap64 m) (wrap64 m) (wrap64 u)
           {| dev := (w2 : @world sim_platform); nl := None; out := [];
              log := ([] ++ [MemRead
                               (Some (0x7f0000000000
                                      + Z.land 0xfed159a0 0xfff))])
                     ++ [MsrRead 0x606] |} in
       (is_null errstr, s')).
Proof.
  apply (power_limit_memory_only (lm := ref_libm) (P := sim_platform)
           mapped_request memory_domain true (sim_state mapped_world None)).
  - reflexivity.
  - reflexivity.
  - discriminate.
Defined.

Section Voltage.
Context {P : Platform}.

Lemma uv_reports_app l1 l2 :
  uv_reports (l1 ++ l2) = uv_reports l1 ++ uv_reports l2.
Proof.
  induction l1 as [|l l1 IH]; [reflexivity|].
  cbn [uv_reports app]. destruct (uv_report l); rewrite IH; reflexivity.
Qed.

Lemma NEW_LINE_reports nll s :
  uv_reports (out (snd (NEW_LINE nll s))) = uv_reports (out s).
Proof.
  destruct (NEW_LINE_out nll s) as [-> | ->]; [reflexivity|].
  rewrite uv_reports_app. cbn. apply app_nil_r.
Qed.

(** One target: the write mode, the flag and the report. *)
Lemma undervolt_it_spec uv ctx s :
  let e := fst (fst (undervolt_transfer uv (write ctx) s)) in
  let r := undervolt_it uv (ctx, s) in
  write (fst r) = write ctx /\
  success (fst r) = success ctx && is_null e /\
  uv_reports (out (snd r))
  = uv_reports (out (snd (undervolt_transfer uv (write ctx) s)))
    ++ [(title uv, index uv, is_null e)].
Proof.
  cbv zeta. unfold undervolt_it.
  destruct (undervolt_transfer uv (write ctx) s) as [[e rdval] s1].
  cbn [fst snd].
  pose proof (NEW_LINE_reports (nll ctx) s1) as R.
  destruct (NEW_LINE (nll ctx) s1) as [nll' s2]. cbn [snd] in R.
  destruct e; cbn [fst snd success write is_null out printf];
    rewrite uv_reports_app, R, ?andb_false_r, ?andb_true_r; auto.
Qed.

Lemma undervolt_read_back_out uv ws s :
  out (snd (undervolt_read_back uv ws s)) = out s.
Proof.
  unfold undervolt_read_back. destruct ws; [|reflexivity].
  pose proof (do_wr_out MSR_ADDR_VOLTAGE (rdval_of uv) s) as W.
  destruct (do_wr MSR_ADDR_VOLTAGE (rdval_of uv) s) as [ok s2].
  cbn [snd] in W. destruct ok; [|exact W].
  pose proof (do_rd_out MSR_ADDR_VOLTAGE s2) as R.
  destruct (do_rd MSR_ADDR_VOLTAGE s2) as [[v|] s3]; cbn [snd] in R |- *;
    congruence.
Qed.

Lemma undervolt_transfer_out uv write s :
  out (snd (undervolt_transfer uv write s)) = out s.
Proof.
  unfold undervolt_transfer.
  assert (H : out (snd (if write then do_wr MSR_ADDR_VOLTAGE (wrval_of uv) s
                        else (true, s))) = out s)
    by (destruct write; [apply do_wr_out | reflexivity]).
  destruct (if write then do_wr MSR_ADDR_VOLTAGE (wrval_of uv) s
            else (true, s)) as [ws s1].
  cbn [snd] in H.
  pose proof (undervolt_read_back_out uv ws s1) as R.
  destruct (undervolt_read_back uv ws s1) as [[rs rv] s2].
  cbn [snd] in R |- *. congruence.
Qed.

(** The run over a list of targets, from any context. *)
Lemma undervolt_foreach_spec (l : list uv_list_t) ctx s :
  let r := uv_list_foreach l undervolt_it (ctx, s) in
  exists outcomes : list bool,
    List.length outcomes = List.length l /\
    uv_reports (out (snd r))
    = uv_reports (out s)
      ++ map (fun p => (title (fst p), index (fst p), snd p))
             (combine l outcomes) /\
    success (fst r) = success ctx && forallb (fun b => b) outcomes.
Proof.
  cbv zeta. unfold uv_list_foreach.
  revert ctx s. induction l as [|uv l IH]; intros ctx s.
  - exists []. cbn. rewrite app_nil_r, andb_true_r. auto.
  - cbn [fold_left].
    destruct (undervolt_it_spec uv ctx s) as (Hw & Hs & Hr).
    rewrite undervolt_transfer_out in Hr.
    destruct (undervolt_it uv (ctx, s)) as [ctx1 s1]. cbn [fst snd] in *.
    destruct (IH ctx1 s1) as (os & Hl & Ho & Hf).
    exists (is_null (fst (fst (undervolt_transfer uv (write ctx) s))) :: os).
    split; [cbn; lia|]. split.
    + rewrite Ho, Hr, <- app_assoc. reflexivity.
    + rewrite Hf, Hs. cbn [forallb]. rewrite andb_assoc. reflexivity.
Qed.

Lemma undervolt_foreach_write l ctx s :
  write (fst (uv_list_foreach l undervolt_it (ctx, s))) = write ctx.
Proof.
  unfold uv_list_foreach. revert ctx s.
  induction l as [|uv l IH]; intros ctx s; [reflexivity|].
  cbn [fold_left].
  destruct (undervolt_it_spec uv ctx s) as (Hw & _).
  destruct (undervolt_it uv (ctx, s)) as [ctx1 s1]. cbn [fst] in Hw.
  rewrite IH. exact Hw.
Qed.





(** The verdict on a read-back that differs. *)
Lemma undervolt_transfer_mismatch uv s w1 w2 w3 v :
  wr (dev s) MSR_ADDR_VOLTAGE (wrval_of uv) = (true, w1) ->
  wr w1 MSR_ADDR_VOLTAGE (rdval_of uv) = (true, w2) ->
  rd w2 MSR_ADDR_VOLTAGE = (Some v, w3) ->
  Z.land (wrap64 v) 0xffffffff <> Z.land (wrval_of uv) 0xffffffff ->
  fst (fst (undervolt_transfer uv true s))
  = Some "Values do not equal"%string.
Proof.
  intros H1 H2 H3 Hne.
  unfold undervolt_transfer, undervolt_read_back, do_wr, do_rd.
  rewrite H1. cbn [dev]. rewrite H2. cbn [dev]. rewrite H3.
  cbn [option_map fst]. unfold undervolt_errstr. cbn [negb orb andb].
  apply Z.eqb_neq in Hne. rewrite Hne. reflexivity.
Qed.

(** C6: with write requested, when for a target the write, the read
    request and the read succeed but the low 32 bits read back differ
    from those written, [undervolt_it] prints the target's line with
    "Values do not equal" and clears the success flag, and [undervolt]
    returns false. *)
Theorem undervolt_values_do_not_equal (config : config_t)
    (l1 l2 : list uv_list_t) (uv0 : uv_list_t) (s : state)
    (w1 w2 w3 : world) (v : Z) :
  uv config = l1 ++ uv0 :: l2 ->
  let before :=
    uv_list_foreach l1 undervolt_it
      ({| write := true; success := true; nll := false |}, s) in
  wr (dev (snd before)) MSR_ADDR_VOLTAGE (wrval_of uv0) = (true, w1) ->
  wr w1 MSR_ADDR_VOLTAGE (rdval_of uv0) = (true, w2) ->
  rd w2 MSR_ADDR_VOLTAGE = (Some v, w3) ->
  Z.land (wrap64 v) 0xffffffff <> Z.land (wrval_of uv0) 0xffffffff ->
  (exists pre,
     out (snd (undervolt_it uv0 before))
     = pre ++ [UvFailed (title uv0) (index uv0)
                 (Some "Values do not equal"%string)]) /\
  success (fst (undervolt_it uv0 before)) = false /\
  fst (undervolt config true s) = false.
Proof.
  intros Hc before H1 H2 H3 Hne.
  pose proof (undervolt_foreach_write l1
                {| write := true; success := true; nll := false |} s) as Hw.
  fold before in Hw. cbn [write] in Hw.
  destruct before as [ctx s0] eqn:Eb. cbn [fst snd] in *.
  pose proof (undervolt_transfer_mismatch uv0 s0 w1 w2 w3 v H1 H2 H3 Hne)
    as Ht.
  assert (Hit : (exists pre,
                   out (snd (undervolt_it uv0 (ctx, s0)))
                   = pre ++ [UvFailed (title uv0) (index uv0)
                               (Some "Values do not equal"%string)]) /\
                success (fst (undervolt_it uv0 (ctx, s0))) = false).
  { unfold undervolt_it. rewrite Hw.
    destruct (undervolt_transfer uv0 true s0) as [[e rdval] s1].
    cbn [fst] in Ht. subst e.
    destruct (NEW_LINE (nll ctx) s1) as [nll' s2].
    cbn [fst snd success out printf]. split; [eexists|]; reflexivity. }
  destruct Hit as [Hout Hs]. split; [exact Hout|]. split; [exact Hs|].
  unfold undervolt. rewrite Hc.
  destruct (l1 ++ uv0 :: l2) as [|x l] eqn:El.
  { destruct l1; discriminate El. }
  rewrite <- El. unfold uv_list_foreach.
  rewrite fold_left_app. cbn [fold_left].
  fold (uv_list_foreach l1 undervolt_it
          ({| write := true; success := true; nll := false |}, s)).
  fold before. rewrite Eb.
  destruct (undervolt_it uv0 (ctx, s0)) as [ctx1 s1]. cbn [fst] in Hs.
  destruct (undervolt_foreach_spec l2 ctx1 s1) as (os & _ & _ & Hf).
  unfold uv_list_foreach in Hf.
  destruct (fold_left (fun d x => undervolt_it x d) l2 (ctx1, s1))
    as [ctx2 s2].
  cbn [fst] in Hf |- *. rewrite Hf, Hs. reflexivity.
Qed.

End Voltage.

(** Two targets on a device whose reads fail: the first target fails,
    and the second has its whole exchange all the same. *)
Example undervolt_after_a_failure :
  let r := undervolt (P := sim_platform) uv_config true
             (sim_state dead_reads None) in
  fst r = false /\
  log (snd r)
  = target_accesses (P := sim_platform) true cpu_target
    ++ target_accesses (P := sim_platform) true gpu_target /\
  out (snd r) = [UvFailed "CPU" 0 (Some "Input/output error"%string);
                 UvFailed "GPU" 1 (Some "Input/output error"%string)].
Proof. cbv zeta. repeat split; vm_compute; reflexivity. Qed.

Lemma undervolt_values_do_not_equal_witness :
  (exists pre,
     out (snd (undervolt_it (P := sim_platform) cpu_target
                 ({| write := true; success := true; nll := false |},
                  sim_state stuck_world None)))
     = pre ++ [UvFailed "CPU" 0 (Some "Values do not equal"%string)]) /\
  success (fst (undervolt_it (P := sim_platform) cpu_target
                  ({| write := true; success := true; nll := false |},
                   sim_state stuck_world None))) = false /\
  fst (undervolt (P := sim_platform) uv_config true
         (sim_state stuck_world None)) = false.
Proof.
  apply (undervolt_values_do_not_equal (P := sim_platform) uv_config
           [] [gpu_target] cpu_target (sim_state stuck_world None)
           {| regs := [(0x150, 0)]; reads_left := 8; writes_left := 7;
              latch := false; cell := None; last_error := "" |}
           {| regs := [(0x150, 0)]; reads_left := 8; writes_left := 6;
              latch := false; cell := None; last_error := "" |}
           {| regs := [(0x150, 0)]; reads_left := 7; writes_left := 6;
              latch := false; cell := None; last_error := "" |}
           0).
  - reflexivity.
  - reflexivity.
  - reflexivity.
  - reflexivity.
  - vm_compute. discriminate.
Defined.

(** ** Further properties of the codec and the appliers *)

(** *** The units register *)

Lemma units_field_exact (k : Z) :
  0 <= k <= 15 -> to_int (fadd (Fin (2 ^ (k + 149))) c_0_5f) = 2 ^ k.
Proof.
  intros Hk.
  assert (A : forallb units_field_ok (map Z.of_nat (seq 0 16)) = true)
    by (vm_compute; reflexivity).
  rewrite forallb_forall in A. apply Z.eqb_eq. apply (A k).
  rewrite <- (Z2Nat.id k) by lia. apply in_map. apply in_seq. lia.
Qed.

Lemma land_15_range (z : Z) : 0 <= Z.land z 0xf <= 15.
Proof.
  change (Z.land z 0xf) with (Z.land z (Z.ones 4)).
  rewrite Z.land_ones by lia.
  pose proof (Z.mod_pos_bound z (2 ^ 4) ltac:(lia)).
  change (2 ^ 4) with 16 in *. lia.
Qed.

Section Units.
Context {lm : LibM} {spec : LibMSpec lm}.

(** X3: [power_unit] and [time_unit] are the powers of two of their
    fields of the units register (the rounding of lines 176-177 is
    exact), and both lie between 1 and 32768. *)
Theorem units_decode (units : Z) :
  power_unit_of units = 2 ^ Z.land units 0xf /\
  time_unit_of units = 2 ^ Z.land (Z.shiftr units 16) 0xf /\
  1 <= power_unit_of units <= 32768 /\
  1 <= time_unit_of units <= 32768.
Proof.
  assert (E : forall z, to_int (fadd (exp2f (of_Z (Z.land z 0xf))) c_0_5f)
                        = 2 ^ Z.land z 0xf).
  { intros z. pose proof (land_15_range z) as R.
    rewrite exp2f_int by lia. apply units_field_exact. exact R. }
  assert (B : forall z, 1 <= 2 ^ Z.land z 0xf <= 32768).
  { intros z. pose proof (land_15_range z) as R. split.
    - pose proof (Z.pow_pos_nonneg 2 (Z.land z 0xf)). lia.
    - change 32768 with (2 ^ 15). apply Z.pow_le_mono_r; lia. }
  unfold power_unit_of, time_unit_of. rewrite !E.
  repeat split; apply B.
Qed.

End Units.

Lemma units_decode_witness :
  power_unit_of (lm := ref_libm) 0xa0e03 = 2 ^ Z.land 0xa0e03 0xf /\
  time_unit_of (lm := ref_libm) 0xa0e03 = 2 ^ Z.land (Z.shiftr 0xa0e03 16) 0xf /\
  1 <= power_unit_of (lm := ref_libm) 0xa0e03 <= 32768 /\
  1 <= time_unit_of (lm := ref_libm) 0xa0e03 <= 32768.
Proof.
  exact (units_decode (lm := ref_libm) (spec := ref_libm_spec) 0xa0e03).
Defined.

(** *** Time windows decoded and encoded *)

Lemma multiplier_exact (i : Z) :
  0 <= i <= 3 ->
  fadd (of_Z 1) (fdiv (of_Z i) c_4f) = Fin ((4 + i) * 2 ^ 147).
Proof.
  intros Hi.
  assert (i = 0 \/ i = 1 \/ i = 2 \/ i = 3) as [->|[->|[->| ->]]] by lia;
    vm_compute; reflexivity.
Qed.

(** The arithmetic of [power_to_seconds] on multiplier index [i],
    exponent [e] and time unit [2^k] is exact. *)
Lemma window_decode_exact (i e k : Z) :
  0 <= i <= 3 -> 0 <= e <= 31 -> 0 <= k <= 15 ->
  fdiv (fmul (Fin (2 ^ (e + 149))) (fadd (of_Z 1) (fdiv (of_Z i) c_4f)))
       (of_Z (2 ^ k))
  = Fin ((4 + i) * 2 ^ (e + 147 - k)).
Proof.
  intros Hi He Hk.
  assert (Hs : 0 < scale) by reflexivity.
  assert (Hk2 : 0 < 2 ^ k <= 2 ^ 15).
  { split; [apply Z.pow_pos_nonneg; lia|apply Z.pow_le_mono_r; lia]. }
  assert (Hb : forall j, 0 <= j <= 178 ->
                 Z.abs ((4 + i) * 2 ^ j) < 2 ^ 277).
  { intros j Hj. assert (0 < 2 ^ j) by (apply Z.pow_pos_nonneg; lia).
    assert (2 ^ j <= 2 ^ 178) by (apply Z.pow_le_mono_r; lia).
    change (2 ^ 277) with (2 ^ 99 * 2 ^ 178).
    rewrite Z.abs_eq by nia. nia. }
  rewrite multiplier_exact by lia.
  rewrite (of_Z_exact (2 ^ k)) by (change (2 ^ 15) with 32768 in Hk2; lia).
  unfold fmul.
  replace (2 ^ (e + 149) * ((4 + i) * 2 ^ 147))
    with ((4 + i) * 2 ^ (e + 147) * scale).
  2:{ unfold scale. rewrite !Z.pow_add_r by lia. ring. }
  rewrite round32_exact by (try apply Hb; lia).
  unfold fdiv.
  destruct (Z.eqb_spec (2 ^ k * scale) 0) as [E|_]; [nia|].
  rewrite Z.sgn_pos, Z.abs_eq, Z.mul_1_l by nia.
  replace ((4 + i) * 2 ^ (e + 147) * scale)
    with ((4 + i) * 2 ^ (e + 147 - k) * (2 ^ k * scale)).
  2:{ replace (e + 147) with (e + 147 - k + k) at 2 by lia.
      rewrite (Z.pow_add_r 2 (e + 147 - k) k) by lia. ring. }
  apply round32_exact; try apply Hb; try lia.
Qed.

Lemma land_mask_range (z : Z) (n : Z) :
  0 <= n -> 0 <= Z.land z (Z.ones n) < 2 ^ n.
Proof.
  intros Hn. rewrite Z.land_ones by lia. apply Z.mod_pos_bound.
  apply Z.pow_pos_nonneg; lia.
Qed.

Lemma in_range_list (n : nat) (z : Z) :
  0 <= z < Z.of_nat n -> In z (map Z.of_nat (seq 0 n)).
Proof.
  intros H. rewrite <- (Z2Nat.id z) by lia. apply in_map. apply in_seq. lia.
Qed.

Lemma window_field_fields (f : Z) :
  window_field f ->
  f = Z.lor (Z.shiftl (Z.land (Z.shiftr f 6) 0x3) 6)
            (Z.shiftl (Z.land (Z.shiftr f 1) 0x1f) 1).
Proof.
  intros [Hr He].
  assert (A : forallb window_fields_ok (map Z.of_nat (seq 0 255)) = true)
    by (vm_compute; reflexivity).
  rewrite forallb_forall in A.
  specialize (A f (in_range_list 255 f ltac:(lia))).
  unfold window_fields_ok in A.
  rewrite <- Z.negb_even, He in A. cbn [negb orb] in A.
  apply Z.eqb_eq. exact A.
Qed.

Section WindowCodec.
Context {lm : LibM} {spec : LibMSpec lm}.

(** X10: for a time unit [2^k] with [k] from 0 to 15,
    [power_to_seconds] is computed without rounding: the result is
    [(1 + i/4) * 2^e / 2^k] seconds, that is [(4 + i) * 2^(e + 147 - k)]
    units of 2^-149, for the multiplier index [i] (bits 6-7) and the
    exponent [e] (bits 1-5) of the field. *)
Theorem power_to_seconds_exact (value k : Z) :
  0 <= k <= 15 ->
  power_to_seconds value (2 ^ k)
  = Fin ((4 + Z.land (Z.shiftr value 6) 0x3)
         * 2 ^ (Z.land (Z.shiftr value 1) 0x1f + 147 - k)).
Proof.
  intros Hk. unfold power_to_seconds.
  pose proof (land_mask_range (Z.shiftr value 6) 2 ltac:(lia)) as Ri.
  pose proof (land_mask_range (Z.shiftr value 1) 5 ltac:(lia)) as Re.
  change (Z.ones 2) with 3 in Ri. change (Z.ones 5) with 31 in Re.
  change (2 ^ 2) with 4 in Ri. change (2 ^ 5) with 32 in Re.
  rewrite exp2f_int by lia.
  apply window_decode_exact; lia.
Qed.

(** X2: for a window of 1.75 time units or more, [power_from_seconds]
    returns a number from 0 to 0xfe which its multiplier index and its
    exponent, as [power_to_seconds] reads them, make up entirely. *)
Theorem power_from_seconds_on_grid (seconds : float) (time_unit : Z) :
  fle c_1_75f (fmul seconds (of_Z time_unit)) = true ->
  0 <= power_from_seconds seconds time_unit <= 0xfe /\
  power_from_seconds seconds time_unit
  = Z.lor (Z.shiftl
             (Z.land (Z.shiftr (power_from_seconds seconds time_unit) 6)
                     0x3) 6)
          (Z.shiftl
             (Z.land (Z.shiftr (power_from_seconds seconds time_unit) 1)
                     0x1f) 1).
Proof.
  intros H. pose proof (power_from_seconds_field seconds time_unit H) as F.
  split; [apply F|]. apply window_field_fields. exact F.
Qed.

End WindowCodec.

Lemma power_to_seconds_exact_witness :
  power_to_seconds (lm := ref_libm) 0xdc (2 ^ 10)
  = Fin ((4 + Z.land (Z.shiftr 0xdc 6) 0x3)
         * 2 ^ (Z.land (Z.shiftr 0xdc 1) 0x1f + 147 - 10)).
Proof.
  apply (power_to_seconds_exact (lm := ref_libm) (spec := ref_libm_spec)
           0xdc 10). lia.
Defined.

Lemma power_from_seconds_on_grid_witness :
  0 <= power_from_seconds (lm := ref_libm) (of_Z 28) 1024 <= 0xfe /\
  power_from_seconds (lm := ref_libm) (of_Z 28) 1024
  = Z.lor (Z.shiftl
             (Z.land (Z.shiftr (power_from_seconds (lm := ref_libm)
                                  (of_Z 28) 1024) 6) 0x3) 6)
          (Z.shiftl
             (Z.land (Z.shiftr (power_from_seconds (lm := ref_libm)
                                  (of_Z 28) 1024) 1) 0x1f) 1).
Proof.
  apply (power_from_seconds_on_grid (lm := ref_libm) (spec := ref_libm_spec)
           (of_Z 28) 1024).
  vm_compute. reflexivity.
Defined.

(** The frame of a power-limit write, at two windows on the grid. *)
Lemma power_limit_frame_witness :
  Z.land (power_limit_value (lm := ref_libm) grid_request
            0x4280c800dd80c8 8 1024) (preserved_mask grid_request)
  = Z.land 0x4280c800dd80c8 (preserved_mask grid_request).
Proof.
  apply (power_limit_frame (lm := ref_libm) (spec := ref_libm_spec)
           grid_request 0x4280c800dd80c8 8 1024).
  - lia.
  - split; [vm_compute; discriminate|vm_compute; reflexivity].
  - split; [vm_compute; discriminate|vm_compute; reflexivity].
  - intros _. vm_compute. reflexivity.
  - intros _. vm_compute. reflexivity.
Defined.

(** *** Power limits written and reported *)

Section PowerRoundTrip.
Context {lm : LibM} {spec : LibMSpec lm} {P : Platform}.

(** Splicing windows that are on the grid leaves the power fields
    alone. *)
Lemma power_limit_windows_power (power : power_limit_t) (v time_unit : Z) :
  (flt (of_Z 0) (short_time_window power) = true ->
   fle c_1_75f (fmul (short_time_window power) (of_Z time_unit)) = true) ->
  (flt (of_Z 0) (long_time_window power) = true ->
   fle c_1_75f (fmul (long_time_window power) (of_Z time_unit)) = true) ->
  Z.land (power_limit_windows power v time_unit) 0x00007fff00007fff
  = Z.land v 0x00007fff00007fff.
Proof.
  intros Wshort Wlong. unfold power_limit_windows.
  destruct (flt (of_Z 0) (short_time_window power)) eqn:Es;
    destruct (flt (of_Z 0) (long_time_window power)) eqn:El;
    try specialize (Wshort eq_refl); try specialize (Wlong eq_refl);
    rewrite ?Z.land_lor_distr_l, <- ?Z.land_assoc; fold_masks;
    repeat match goal with
      | |- context [Z.land (wrap64 (Z.shiftl (wrap64 (power_from_seconds
                                                        ?w ?u)) ?k)) ?c] =>
          rewrite (window_placed_disjoint w u k c ltac:(assumption)
                     ltac:(lia) eq_refl)
      end;
    rewrite ?Z.lor_0_r; reflexivity.
Qed.

(** X4: what is written is what is reported: for requests within
    [0, 0x7fff / power_unit] and windows on the grid, the report of the
    value [power_limit] writes shows the requested watts. *)
Theorem power_limit_report_shows_request (power : power_limit_t)
    (domain : power_domain_t) (msr_limit power_unit time_unit : Z)
    (s : state) :
  0 < power_unit < 2 ^ 31 ->
  0 <= short_term power <= 0x7fff / power_unit ->
  0 <= long_term power <= 0x7fff / power_unit ->
  (flt (of_Z 0) (short_time_window power) = true ->
   fle c_1_75f (fmul (short_time_window power) (of_Z time_unit)) = true) ->
  (flt (of_Z 0) (long_time_window power) = true ->
   fle c_1_75f (fmul (long_time_window power) (of_Z time_unit)) = true) ->
  exists pre sw se lw le,
    out (power_limit_report domain
           (power_limit_value power msr_limit power_unit time_unit)
           power_unit time_unit s)
    = pre ++ [PowerShort (name domain) (short_term power) sw se;
              PowerLong (name domain) (long_term power) lw le].
Proof.
  intros Hu Hs Hl Wshort Wlong.
  set (value := power_limit_value power msr_limit power_unit time_unit).
  assert (Hm : 0x7fff / power_unit <= 0x7fff).
  { apply Z.div_le_upper_bound; nia. }
  destruct (power_clamp_cases (short_term power) power_unit ltac:(lia)
              ltac:(lia)) as [(_ & _ & Cs) Bs].
  destruct (power_clamp_cases (long_term power) power_unit ltac:(lia)
              ltac:(lia)) as [(_ & _ & Cl) Bl].
  specialize (Cs Hs). specialize (Cl Hl).
  pose proof (power_limit_windows_power power
                (power_limit_fields power msr_limit power_unit) time_unit
                Wshort Wlong) as K.
  fold (power_limit_value power msr_limit power_unit time_unit) in K.
  fold value in K.
  destruct (power_fields_extract msr_limit _ _ Bs Bl) as [Es El].
  fold (power_limit_fields power msr_limit power_unit) in Es, El.
  assert (Vs : Z.land (Z.shiftr value 32) 0x7fff
               = short_term power * power_unit).
  { rewrite <- Cs, <- Es.
    change 0x7fff with (Z.shiftr 0x00007fff00007fff 32) at 1 2.
    rewrite <- !Z.shiftr_land, K. reflexivity. }
  assert (Vl : Z.land value 0x7fff = long_term power * power_unit).
  { rewrite <- Cl, <- El.
    change 0x7fff with (Z.land 0x00007fff00007fff 0x7fff) at 1 2.
    rewrite !Z.land_assoc, K. reflexivity. }
  unfold power_limit_report. rewrite Vs, Vl.
  assert (Hw : wrap64 power_unit = power_unit).
  { unfold wrap64. apply Z.mod_small. lia. }
  rewrite Hw, !Z.div_mul by lia.
  assert (Hi : forall w, 0 <= w <= 0x7fff -> wrap_int w = w).
  { intros w Hw'. unfold wrap_int. rewrite Z.mod_small; lia. }
  rewrite (Hi (short_term power)), (Hi (long_term power)) by lia.
  destruct (Z.land (Z.shiftr value 63) 1 =? 0); cbn [printf out];
    rewrite <- app_assoc; cbn [app]; do 5 eexists; reflexivity.
Qed.

End PowerRoundTrip.

Lemma power_limit_report_shows_request_witness :
  exists pre sw se lw le,
    out (power_limit_report (lm := ref_libm) (P := sim_platform)
           register_domain
           (power_limit_value (lm := ref_libm) grid_request
              0x4280c800dd80c8 8 1024)
           8 1024 (sim_state register_world (Some false)))
    = pre ++ [PowerShort "package" 25 sw se; PowerLong "package" 15 lw le].
Proof.
  apply (power_limit_report_shows_request (lm := ref_libm)
           (spec := ref_libm_spec) (P := sim_platform)
           grid_request register_domain 0x4280c800dd80c8 8 1024
           (sim_state register_world (Some false))).
  - lia.
  - split; vm_compute; discriminate.
  - split; vm_compute; discriminate.
  - intros _. vm_compute. reflexivity.
  - intros _. vm_compute. reflexivity.
Defined.

Section PowerAccess.
Context {lm : LibM} {P : Platform}.

Lemma power_limit_apply_read_only_log power domain mem nll a b u s :
  log (snd (power_limit_apply power domain mem false nll a b u s)) = log s.
Proof.
  unfold power_limit_apply.
  destruct (negb (a =? b)).
  - pose proof (NEW_LINE_log nll s) as L.
    destruct (NEW_LINE nll s) as [nll0 s0]. cbn [snd] in L.
    rewrite power_limit_finish_log, printf_log. exact L.
  - apply power_limit_finish_log.
Qed.

(** X8: without [write], [power_limit] only reads: no register and no
    mapped memory is written, whatever the reads return. *)
Theorem power_limit_read_only (power : power_limit_t)
    (domain : power_domain_t) (s : state) :
  exists l,
    log (snd (power_limit_domain power domain false s)) = log s ++ l /\
    Forall is_read l.
Proof.
  unfold power_limit_domain.
  destruct (apply power).
  2:{ exists []. cbn [snd]. rewrite app_nil_r. split; [reflexivity|constructor]. }
  set (mem := match mem power with
              | Some base => Some (base + Z.land (mem_addr domain) MAP_MASK)
              | None => None
              end).
  assert (R1 : exists l1,
             log (snd (if msr_addr domain =? 0 then (true, 0, s)
                       else match do_rd (msr_addr domain) s with
                            | (Some v, s) => (true, v, s)
                            | (None, s) => (false, 0, s)
                            end)) = log s ++ l1 /\ Forall is_read l1).
  { destruct (msr_addr domain =? 0).
    - exists []. cbn [snd]. rewrite app_nil_r. split; [reflexivity|constructor].
    - unfold do_rd. destruct (rd (dev s) (msr_addr domain)) as [[v|] w];
        cbn [option_map snd log]; eexists; (split; [reflexivity|]);
        (constructor; [exact I|constructor]). }
  destruct R1 as (l1 & L1 & F1).
  destruct (if msr_addr domain =? 0 then (true, 0, s)
            else match do_rd (msr_addr domain) s with
                 | (Some v, s) => (true, v, s)
                 | (None, s) => (false, 0, s)
                 end) as [[msr_ok msr_limit] s1].
  cbn [snd] in L1.
  assert (fin : forall (e : cstr) (s2 : state) l2,
            log s2 = log s1 ++ l2 -> Forall is_read l2 ->
            exists l,
              log (snd (let '(nll, s) := NEW_LINE false s2 in
                        (e, printf (PowerReadFailed (name domain) e) s)))
              = log s ++ l /\ Forall is_read l).
  { intros e s2 l2 L2 F2.
    pose proof (NEW_LINE_log false s2) as N.
    destruct (NEW_LINE false s2) as [nll s3]. cbn [snd] in N |- *.
    exists (l1 ++ l2). split; [|apply Forall_app; split; assumption].
    rewrite printf_log, N, L2, L1, app_assoc. reflexivity. }
  destruct msr_ok.
  2:{ destruct (fin (Some (strerror_errno (dev s1))) s1 []
                  ltac:(rewrite app_nil_r; reflexivity) ltac:(constructor))
        as (l & L & F).
      exists l. split; [|exact F]. cbn [is_null snd fst] in *.
      destruct (NEW_LINE false s1) as [nll s3]. exact L. }
  assert (R2 : exists l2,
             log (snd (if mem_addr domain =? 0 then (true, 0, s1)
                       else match do_safe_rw_read mem s1 with
                            | (Some v, s) => (true, v, s)
                            | (None, s) => (false, 0, s)
                            end)) = log s1 ++ l2 /\ Forall is_read l2).
  { destruct (mem_addr domain =? 0).
    - exists []. cbn [snd]. rewrite app_nil_r. split; [reflexivity|constructor].
    - unfold do_safe_rw_read. destruct (safe_rw_read (dev s1) mem) as [[v|] w];
        cbn [option_map snd log]; eexists; (split; [reflexivity|]);
        (constructor; [exact I|constructor]). }
  destruct R2 as (l2 & L2 & F2).
  destruct (if mem_addr domain =? 0 then (true, 0, s1)
            else match do_safe_rw_read mem s1 with
                 | (Some v, s) => (true, v, s)
                 | (None, s) => (false, 0, s)
                 end) as [[mem_ok mem_limit] s2].
  cbn [snd] in L2.
  destruct mem_ok.
  2:{ destruct (fin (Some "Segmentation fault"%string) s2 l2 L2 F2)
        as (l & L & F).
      exists l. split; [|exact F]. cbn [is_null snd fst] in *.
      destruct (NEW_LINE false s2) as [nll s3]. exact L. }
  unfold do_rd.
  destruct (rd (dev s2) MSR_ADDR_UNITS) as [[u|] w]; cbn [option_map].
  - set (s3 := {| dev := w; nl := nl s2; out := out s2;
                  log := log s2 ++ [MsrRead MSR_ADDR_UNITS] |}).
    assert (L3 : log s3 = log s ++ (l1 ++ l2 ++ [MsrRead MSR_ADDR_UNITS])).
    { subst s3. cbn [log]. rewrite L2, L1, <- !app_assoc. reflexivity. }
    assert (F3 : Forall is_read (l1 ++ l2 ++ [MsrRead MSR_ADDR_UNITS])).
    { apply Forall_app. split; [exact F1|]. apply Forall_app.
      split; [exact F2|]. constructor; [exact I|constructor]. }
    destruct ((msr_addr domain =? 0) && (mem_addr domain =? 0)) eqn:Eb.
    + exists (l1 ++ l2 ++ [MsrRead MSR_ADDR_UNITS]). split; [|exact F3].
      destruct (msr_addr domain =? 0), (mem_addr domain =? 0);
        try discriminate Eb.
      pose proof (NEW_LINE_log false s3) as N.
      destruct (NEW_LINE false s3) as [nll s4]. cbn [snd] in N |- *.
      rewrite printf_log, N. exact L3.
    + exists (l1 ++ l2 ++ [MsrRead MSR_ADDR_UNITS]). split; [|exact F3].
      destruct (msr_addr domain =? 0), (mem_addr domain =? 0);
        try discriminate Eb;
        match goal with
        | |- context [power_limit_apply ?a ?b ?c false ?e ?f ?g ?h ?i] =>
            pose proof (power_limit_apply_read_only_log a b c e f g h i) as A;
            destruct (power_limit_apply a b c false e f g h i) as [e' s']
        end; cbn [snd] in A |- *; rewrite A; exact L3.
  - set (s3 := {| dev := w; nl := nl s2; out := out s2;
                  log := log s2 ++ [MsrRead MSR_ADDR_UNITS] |}).
    destruct (fin (Some (strerror_errno (dev s3))) s3
                (l2 ++ [MsrRead MSR_ADDR_UNITS])
                ltac:(subst s3; cbn [log]; rewrite L2, <- app_assoc;
                      reflexivity)
                ltac:(apply Forall_app; split; [exact F2|];
                      constructor; [exact I|constructor]))
      as (l & L & F).
    exists l. split; [|exact F]. cbn [is_null snd fst] in *.
    destruct (NEW_LINE false s3) as [nll s4]. exact L.
Qed.

(** X9: for a domain reached through the register file only, once the
    limit and the units have been read, what is written to the limit
    register is [power_limit_value] of the value read under the units
    read, and when that write succeeds [power_limit] returns true. *)
Theorem power_limit_register_only_write (power : power_limit_t)
    (domain : power_domain_t) (s : state) (v u : Z) (w1 w2 w3 : world) :
  apply power = true -> msr_addr domain <> 0 -> mem_addr domain = 0 ->
  rd (dev s) (msr_addr domain) = (Some v, w1) ->
  rd w1 MSR_ADDR_UNITS = (Some u, w2) ->
  wr w2 (msr_addr domain)
     (power_limit_value power (wrap64 v) (power_unit_of (wrap64 u))
        (time_unit_of (wrap64 u))) = (true, w3) ->
  fst (power_limit_domain power domain true s) = true /\
  log (snd (power_limit_domain power domain true s))
  = log s ++ [MsrRead (msr_addr domain); MsrRead MSR_ADDR_UNITS;
              MsrWrite (msr_addr domain)
                (power_limit_value power (wrap64 v)
                   (power_unit_of (wrap64 u)) (time_unit_of (wrap64 u)))].
Proof.
  intros Ha Hm Hp H1 H2 H3. apply Z.eqb_neq in Hm.
  unfold power_limit_domain. rewrite Ha, Hm, Hp. cbn [Z.eqb andb].
  unfold do_rd. rewrite H1. cbn [option_map dev]. rewrite H2.
  cbn [option_map]. unfold power_limit_apply. rewrite Hm, Hp.
  cbn [Z.eqb]. unfold do_wr. cbn [dev]. rewrite H3.
  match goal with
  | |- context [power_limit_finish ?a ?b ?c ?d ?e ?f ?g] =>
      pose proof (power_limit_finish_log a b c d e f g) as L;
      assert (E : fst (power_limit_finish a b c d e f g) = None);
      [|destruct (power_limit_finish a b c d e f g) as [e' s']]
  end.
  { unfold power_limit_finish.
    match goal with |- context [NEW_LINE ?n ?x] =>
      destruct (NEW_LINE n x) as [n' x'] end.
    destruct (nl x'); reflexivity. }
  cbn [fst snd] in *. subst e'. split; [reflexivity|].
  rewrite L. cbn [log]. rewrite <- !app_assoc. reflexivity.
Qed.

End PowerAccess.

Lemma power_limit_register_only_write_witness :
  fst (power_limit_domain (lm := ref_libm) (P := sim_platform)
         grid_request register_domain true
         (sim_state register_world None)) = true /\
  log (snd (power_limit_domain (lm := ref_libm) (P := sim_platform)
              grid_request register_domain true
              (sim_state register_world None)))
  = [] ++ [MsrRead 0x610; MsrRead 0x606;
           MsrWrite 0x610
             (power_limit_value (lm := ref_libm) grid_request
                (wrap64 0x4280c800dd80c8)
                (power_unit_of (lm := ref_libm) (wrap64 0xa0e03))
                (time_unit_of (lm := ref_libm) (wrap64 0xa0e03)))].
Proof.
  apply (power_limit_register_only_write (lm := ref_libm)
           (P := sim_platform) grid_request register_domain
           (sim_state register_world None) 0x4280c800dd80c8 0xa0e03
           (snd (sim_rd register_world 0x610))
           (snd (sim_rd (snd (sim_rd register_world 0x610)) 0x606))
           (snd (sim_wr
                   (snd (sim_rd (snd (sim_rd register_world 0x610)) 0x606))
                   0x610
                   (power_limit_value (lm := ref_libm) grid_request
                      (wrap64 0x4280c800dd80c8)
                      (power_unit_of (lm := ref_libm) (wrap64 0xa0e03))
                      (time_unit_of (lm := ref_libm) (wrap64 0xa0e03)))))).
  - reflexivity.
  - discriminate.
  - reflexivity.
  - vm_compute. reflexivity.
  - vm_compute. reflexivity.
  - vm_compute. reflexivity.
Defined.

(** *** The thermal offset *)

Lemma low6 f : 0 <= f <= 0x3f -> Z.land f 0x3f = f.
Proof.
  intros H. change 0x3f with (Z.ones 6).
  rewrite Z.land_ones by lia. apply Z.mod_small. change (2 ^ 6) with 64. lia.
Qed.

(** Lines 258-260: the offset field of the temperature register. *)
Lemma tjoffset_splice (limit offset : Z) :
  0 <= offset ->
  let f := if 0x3f <? offset then 0x3f else offset in
  let v := Z.lor (Z.land limit 0xffffffffc0ffffff)
                 (wrap64 (Z.shiftl f 24)) in
  Z.land v 0xffffffffc0ffffff = Z.land limit 0xffffffffc0ffffff /\
  Z.shiftr (Z.land v 0x3f000000) 24 = Z.min 0x3f offset.
Proof.
  intros Ho. cbv zeta.
  set (f := if 0x3f <? offset then 0x3f else offset).
  assert (Hf : 0 <= f <= 0x3f /\ f = Z.min 0x3f offset).
  { subst f. destruct (Z.ltb_spec 0x3f offset); lia. }
  destruct Hf as [Hf Hmin].
  assert (Hw : wrap64 (Z.shiftl f 24) = Z.shiftl f 24).
  { unfold wrap64. rewrite Z.shiftl_mul_pow2 by lia.
    apply Z.mod_small. lia. }
  split.
  - rewrite Z.land_lor_distr_l, <- Z.land_assoc.
    change (Z.land 0xffffffffc0ffffff 0xffffffffc0ffffff)
      with 0xffffffffc0ffffff.
    rewrite (placed_field_disjoint f 0x3f 24 0xffffffffc0ffffff);
      [apply Z.lor_0_r | lia | lia | apply low6; exact Hf | lia
      | reflexivity].
  - rewrite Z.land_lor_distr_l, <- Z.land_assoc.
    change (Z.land 0xffffffffc0ffffff 0x3f000000) with 0.
    rewrite Z.land_0_r, Z.lor_0_l, Hw.
    change 0x3f000000 with (Z.shiftl 0x3f 24).
    rewrite <- Z.shiftl_land, low6 by exact Hf.
    rewrite Z.shiftr_shiftl_l by lia. change (24 - 24) with 0.
    rewrite Z.shiftl_0_r. exact Hmin.
Qed.

(** Below 2^64 the cast of a magnitude is its integer part. *)
Lemma magnitude_integer_part (x : float) :
  flt (absf x) (of_Z (2 ^ 64)) = true ->
  (inject_Z (to_u64 (absf x)) <= to_Q (absf x))%Q /\
  (to_Q (absf x) < inject_Z (to_u64 (absf x) + 1))%Q.
Proof.
  intros Hm. change (of_Z (2 ^ 64)) with (Fin (2 ^ 64 * scale)) in Hm.
  assert (Hs : 0 < scale) by reflexivity.
  destruct x as [a|[]|].
  - rewrite absf_fin in *. cbn [flt] in Hm. apply Z.ltb_lt in Hm.
    rewrite to_u64_in_range by lia.
    unfold Qle, Qlt, inject_Z, to_Q. cbn [Qnum Qden].
    rewrite Z2Pos.id by exact Hs.
    pose proof (Z.div_mod (Z.abs a) scale ltac:(lia)) as D.
    pose proof (Z.mod_pos_bound (Z.abs a) scale Hs) as M.
    split; nia.
  - exfalso. unfold absf in Hm. cbn [flt fneg negb] in Hm. discriminate Hm.
  - exfalso. unfold absf in Hm. cbn [flt fneg negb] in Hm. discriminate Hm.
  - exfalso. unfold absf in Hm. cbn [flt] in Hm. discriminate Hm.
Qed.

Section Thermal.
Context {P : Platform}.

(** X5: for an offset of magnitude below 2^64, the write phase of
    [tjoffset] writes the value read with bits 24-29 replaced by the
    integer part of that magnitude, at most 63; every other bit is as
    read. *)
Theorem tjoffset_write_value (config : config_t) (s : state)
    (limit : Z) (w1 : world) :
  flt (absf (tjoffset_value config)) (of_Z (2 ^ 64)) = true ->
  rd (dev s) MSR_ADDR_TEMPERATURE = (Some limit, w1) ->
  exists v,
    log (snd (tjoffset_write config true s))
    = log s ++ [MsrRead MSR_ADDR_TEMPERATURE;
                MsrWrite MSR_ADDR_TEMPERATURE v] /\
    Z.land v 0xffffffffc0ffffff = Z.land (wrap64 limit) 0xffffffffc0ffffff /\
    Z.shiftr (Z.land v 0x3f000000) 24
    = Z.min 0x3f (to_u64 (absf (tjoffset_value config))) /\
    (inject_Z (to_u64 (absf (tjoffset_value config)))
     <= to_Q (absf (tjoffset_value config)))%Q /\
    (to_Q (absf (tjoffset_value config))
     < inject_Z (to_u64 (absf (tjoffset_value config)) + 1))%Q.
Proof.
  intros Hm H1. unfold tjoffset_write, do_rd. rewrite H1. cbn [option_map].
  destruct (tjoffset_splice (wrap64 limit)
              (to_u64 (absf (tjoffset_value config)))
              (to_u64_nonneg _)) as [A B].
  eexists. split; [|split; [exact A|split; [exact B|]]].
  - unfold do_wr. cbn [dev].
    match goal with |- context [wr w1 ?a ?v] =>
      destruct (wr w1 a v) as [ok w2] end.
    destruct ok; cbn [snd log]; rewrite <- app_assoc; reflexivity.
  - apply magnitude_integer_part. exact Hm.
Qed.

(** X12: in write mode a failing first read of the temperature register
    is reported as a failure to write, with the system error;
    [tjoffset] returns false, writes nothing and does not read again. *)
Theorem tjoffset_read_failure (config : config_t) (s : state) (w : world) :
  tjoffset_apply config = true ->
  rd (dev s) MSR_ADDR_TEMPERATURE = (None, w) ->
  fst (tjoffset config true s) = false /\
  log (snd (tjoffset config true s)) = log s ++ [MsrRead MSR_ADDR_TEMPERATURE] /\
  exists pre,
    out (snd (tjoffset config true s))
    = pre ++ [TempWriteFailed (Some (strerror_errno w))].
Proof.
  intros Ha H1. unfold tjoffset, tjoffset_write, do_rd.
  rewrite Ha, H1. cbn [option_map dev].
  match goal with |- context [NEW_LINE false ?x] =>
    pose proof (NEW_LINE_log false x) as L;
    destruct (NEW_LINE false x) as [nll s2] end.
  cbn [snd fst is_null printf log out] in *.
  split; [reflexivity|]. split; [exact L|]. eexists. reflexivity.
Qed.

End Thermal.

Lemma tjoffset_write_value_witness :
  exists v,
    log (snd (tjoffset_write (P := sim_platform) tj_config true
                (sim_state one_read None)))
    = [] ++ [MsrRead 0x1a2; MsrWrite 0x1a2 v] /\
    Z.land v 0xffffffffc0ffffff = Z.land (wrap64 0x640000) 0xffffffffc0ffffff /\
    Z.shiftr (Z.land v 0x3f000000) 24
    = Z.min 0x3f (to_u64 (absf (of_Z (-10)))) /\
    (inject_Z (to_u64 (absf (of_Z (-10)))) <= to_Q (absf (of_Z (-10))))%Q /\
    (to_Q (absf (of_Z (-10))) < inject_Z (to_u64 (absf (of_Z (-10))) + 1))%Q.
Proof.
  apply (tjoffset_write_value (P := sim_platform) tj_config
           (sim_state one_read None) 0x640000
           (snd (sim_rd one_read 0x1a2))).
  - vm_compute. reflexivity.
  - reflexivity.
Defined.

Lemma tjoffset_read_failure_witness :
  fst (tjoffset (P := sim_platform) tj_config true
         (sim_state dead_reads None)) = false /\
  log (snd (tjoffset (P := sim_platform) tj_config true
              (sim_state dead_reads None))) = [] ++ [MsrRead 0x1a2] /\
  exists pre,
    out (snd (tjoffset (P := sim_platform) tj_config true
                (sim_state dead_reads None)))
    = pre ++ [TempWriteFailed (Some "Input/output error"%string)].
Proof.
  apply (tjoffset_read_failure (P := sim_platform) tj_config
           (sim_state dead_reads None) (snd (sim_rd dead_reads 0x1a2))).
  - reflexivity.
  - reflexivity.
Defined.

(** *** Voltage offsets on the wire *)

Lemma shifted_low_bits (x k n : Z) :
  0 <= n <= k -> k <= 64 ->
  Z.land (wrap64 (Z.shiftl x k)) (Z.ones n) = 0.
Proof.
  intros Hn Hk. unfold wrap64.
  rewrite Z.land_ones, Z.shiftl_mul_pow2 by lia.
  replace (2 ^ 64) with (2 ^ (64 - n) * 2 ^ n)
    by (rewrite <- Z.pow_add_r by lia; f_equal; lia).
  replace (x * 2 ^ k) with (x * 2 ^ (k - n) * 2 ^ n)
    by (rewrite <- Z.mul_assoc, <- Z.pow_add_r by lia; do 2 f_equal; lia).
  assert (0 < 2 ^ n) by (apply Z.pow_pos_nonneg; lia).
  assert (0 < 2 ^ (64 - n)) by (apply Z.pow_pos_nonneg; lia).
  rewrite Z.mul_mod_distr_r by lia.
  apply Z.mod_mul. lia.
Qed.

Lemma uvint_shape (v : float) :
  Z.land (uvint v) 0x1fffff = 0 /\ 0 <= uvint v < 2 ^ 32.
Proof.
  unfold uvint. split.
  - rewrite <- Z.land_assoc.
    change (Z.land 0xffffffff 0x1fffff) with (Z.ones 21).
    apply shifted_low_bits; lia.
  - change 0xffffffff with (Z.ones 32). rewrite Z.land_ones by lia.
    apply Z.mod_pos_bound. lia.
Qed.

Lemma rdval_low_bits (uv : uv_list_t) : Z.land (rdval_of uv) 0x1ffffffff = 0.
Proof.
  unfold rdval_of. rewrite Z.land_lor_distr_l.
  change (Z.land 0x8000001000000000 0x1ffffffff) with 0.
  change 0x1ffffffff with (Z.ones 33).
  rewrite shifted_low_bits by lia. reflexivity.
Qed.

Lemma wrval_low_bits (uv : uv_list_t) :
  Z.land (wrval_of uv) 0xffffffff = uvint (value uv).
Proof.
  assert (R32 : Z.land (rdval_of uv) 0xffffffff = 0).
  { change 0xffffffff with (Z.land 0x1ffffffff 0xffffffff).
    rewrite Z.land_assoc, rdval_low_bits. reflexivity. }
  unfold wrval_of. rewrite !Z.land_lor_distr_l, R32.
  change (Z.land 0x100000000 0xffffffff) with 0.
  destruct (uvint_shape (value uv)) as [_ U]. cbn [Z.lor].
  change 0xffffffff with (Z.ones 32). rewrite Z.land_ones by lia.
  apply Z.mod_small. exact U.
Qed.

Lemma rdval_write_flag_clear (uv : uv_list_t) :
  Z.testbit (rdval_of uv) 32 = false.
Proof.
  assert (T : Z.testbit (Z.land (rdval_of uv) 0x1ffffffff) 32 = false)
    by (rewrite rdval_low_bits; reflexivity).
  rewrite Z.land_spec in T. change (Z.testbit 0x1ffffffff 32) with true in T.
  rewrite andb_true_r in T. exact T.
Qed.

(** X11: the layout of the two values [undervolt_it] sends: the read
    request has bits 0-32 clear; the value written has the write flag,
    bit 32, set and the encoded offset as its low 32 bits; the encoded
    offset lies in bits 21-31. *)
Theorem voltage_values_layout (uv : uv_list_t) :
  Z.land (rdval_of uv) 0x1ffffffff = 0 /\
  Z.land (wrval_of uv) 0xffffffff = uvint (value uv) /\
  Z.testbit (wrval_of uv) 32 = true /\
  Z.land (uvint (value uv)) 0x1fffff = 0 /\
  0 <= uvint (value uv) < 2 ^ 32.
Proof.
  split; [apply rdval_low_bits|]. split; [apply wrval_low_bits|].
  split; [|apply uvint_shape].
  unfold wrval_of. rewrite !Z.lor_spec.
  change (Z.testbit 0x100000000 32) with true.
  rewrite orb_true_r. reflexivity.
Qed.

(** The codec round trip on any [float] of magnitude at most 250. *)
Lemma uv_decode_close (mV : float) (raw : Z) :
  fle (absf mV) (of_Z 250) = true ->
  Z.land raw 0xffffffff = uvint mV ->
  is_finite (uv_decode raw) = true /\
  (Qabs (to_Q (uv_decode raw) - to_Q (absf mV)) <= 1000 # 1024)%Q.
Proof.
  intros Hm Hraw.
  change (of_Z 250) with (Fin (250 * scale)) in Hm.
  destruct mV as [a|[]|].
  - apply voltage_codec_roundtrip_fin; [|exact Hraw].
    rewrite absf_fin in Hm. cbn [fle] in Hm. apply Z.leb_le in Hm. lia.
  - exfalso. unfold absf in Hm. cbn [flt fneg negb fle] in Hm.
    discriminate Hm.
  - exfalso. unfold absf in Hm. cbn [flt fneg negb fle] in Hm.
    discriminate Hm.
  - exfalso. unfold absf in Hm. cbn [flt fle] in Hm. discriminate Hm.
Qed.

Section VoltageExtras.
Context {P : Platform}.

(** A transfer that ends without error, in write mode, has read back
    the low 32 bits it wrote. *)
Lemma undervolt_transfer_verified uv s rdval s1 :
  undervolt_transfer uv true s = (None, rdval, s1) ->
  Z.land rdval 0xffffffff = Z.land (wrval_of uv) 0xffffffff.
Proof.
  unfold undervolt_transfer, undervolt_errstr.
  destruct (do_wr MSR_ADDR_VOLTAGE (wrval_of uv) s) as [ws s0].
  destruct (undervolt_read_back uv ws s0) as [[rs rv] s2].
  destruct ws, rs; cbn [negb orb andb]; try discriminate.
  destruct (Z.eqb_spec (Z.land rv 0xffffffff)
              (Z.land (wrval_of uv) 0xffffffff)) as [E|_];
    cbn [negb]; [|discriminate].
  intros [= <- _]. exact E.
Qed.

(** X7: when a target of magnitude at most 250 mV is written and the
    read-back verifies, [undervolt_it] leaves the success flag as it
    was and prints for the target a finite offset within 1/1.024 mV of
    the magnitude requested. *)
Theorem undervolt_it_reports_applied_offset (uv : uv_list_t)
    (ctx : undervolt_ctx_t) (s s1 : state) (rdval : Z) :
  write ctx = true ->
  undervolt_transfer uv true s = (None, rdval, s1) ->
  fle (absf (value uv)) (of_Z 250) = true ->
  exists pre val,
    out (snd (undervolt_it uv (ctx, s)))
    = pre ++ [UvValue (title uv) (index uv) val] /\
    success (fst (undervolt_it uv (ctx, s))) = success ctx /\
    is_finite val = true /\
    (Qabs (to_Q val - to_Q (absf (value uv))) <= 1000 # 1024)%Q.
Proof.
  intros Hw Ht Hm.
  pose proof (undervolt_transfer_verified uv s rdval s1 Ht) as E.
  rewrite wrval_low_bits in E.
  destruct (uv_decode_close (value uv) rdval Hm E)
    as [F Q].
  unfold undervolt_it. rewrite Hw, Ht.
  destruct (NEW_LINE (nll ctx) s1) as [nll' s2].
  cbn [fst snd out printf success].
  exists (out s2), (uv_decode rdval). auto.
Qed.

Lemma undervolt_read_back_log uv ws s :
  exists l, log (snd (undervolt_read_back uv ws s)) = log s ++ l /\
            Forall (read_request_access [uv]) l.
Proof.
  assert (W : read_request_access [uv]
                (MsrWrite MSR_ADDR_VOLTAGE (rdval_of uv))).
  { right. exists uv. split; [left; reflexivity|].
    split; [reflexivity|apply rdval_write_flag_clear]. }
  unfold undervolt_read_back. destruct ws.
  - unfold do_wr. destruct (wr (dev s) MSR_ADDR_VOLTAGE (rdval_of uv)) as [ok w1].
    destruct ok.
    + unfold do_rd. cbn [dev log].
      destruct (rd w1 MSR_ADDR_VOLTAGE) as [[v|] w2]; cbn [option_map snd log];
        exists [MsrWrite MSR_ADDR_VOLTAGE (rdval_of uv);
                MsrRead MSR_ADDR_VOLTAGE];
        (split; [rewrite <- app_assoc; reflexivity|]);
        (constructor; [exact W|constructor; [left; reflexivity|constructor]]).
    + cbn [snd log]. exists [MsrWrite MSR_ADDR_VOLTAGE (rdval_of uv)].
      split; [reflexivity|]. constructor; [exact W|constructor].
  - exists []. cbn [snd]. rewrite app_nil_r. split; [reflexivity|constructor].
Qed.

Lemma read_request_access_incl l1 l2 a :
  incl l1 l2 -> read_request_access l1 a -> read_request_access l2 a.
Proof.
  intros I [H|(uv & Hin & H)]; [left; exact H|].
  right. exists uv. split; [apply I; exact Hin|exact H].
Qed.

Lemma undervolt_it_read_only_log uv ctx s :
  write ctx = false ->
  exists l, log (snd (undervolt_it uv (ctx, s))) = log s ++ l /\
            Forall (read_request_access [uv]) l.
Proof.
  intros Hw. unfold undervolt_it, undervolt_transfer. rewrite Hw.
  destruct (undervolt_read_back_log uv true s) as (l & L & F).
  destruct (undervolt_read_back uv true s) as [[rs rv] s1]. cbn [snd] in L.
  pose proof (NEW_LINE_log (nll ctx) s1) as N.
  destruct (NEW_LINE (nll ctx) s1) as [nll' s2]. cbn [snd] in N.
  exists l. split; [|exact F].
  destruct (undervolt_errstr false true rs rv (wrval_of uv) s1);
    cbn [snd printf log]; congruence.
Qed.

Lemma undervolt_foreach_read_only_log (l : list uv_list_t) ctx s :
  write ctx = false ->
  exists acc,
    log (snd (uv_list_foreach l undervolt_it (ctx, s))) = log s ++ acc /\
    Forall (read_request_access l) acc.
Proof.
  unfold uv_list_foreach. revert ctx s.
  induction l as [|uv l IH]; intros ctx s Hw.
  - exists []. cbn. rewrite app_nil_r. split; [reflexivity|constructor].
  - cbn [fold_left].
    destruct (undervolt_it_read_only_log uv ctx s Hw) as (l1 & L1 & F1).
    pose proof (undervolt_it_spec uv ctx s) as (W & _).
    destruct (undervolt_it uv (ctx, s)) as [ctx1 s1]. cbn [fst snd] in *.
    destruct (IH ctx1 s1 ltac:(congruence)) as (l2 & L2 & F2).
    exists (l1 ++ l2). split.
    + rewrite L2, L1, app_assoc. reflexivity.
    + apply Forall_app. split.
      * eapply Forall_impl; [|exact F1]. intros a.
        apply read_request_access_incl. intros x [->|[]]. left. reflexivity.
      * eapply Forall_impl; [|exact F2]. intros a.
        apply read_request_access_incl. intros x Hx. right. exact Hx.
Qed.

(** X6: without [write], [undervolt] sends read requests and reads
    only: no value with the write flag reaches the voltage register. *)
Theorem undervolt_read_only (config : config_t) (s : state) :
  exists acc,
    log (snd (undervolt config false s)) = log s ++ acc /\
    Forall (read_request_access (uv config)) acc.
Proof.
  unfold undervolt. destruct (uv config) as [|uv0 l] eqn:E.
  - exists []. cbn. rewrite app_nil_r. split; [reflexivity|constructor].
  - destruct (undervolt_foreach_read_only_log (uv0 :: l)
                {| write := false; success := true; nll := false |} s
                eq_refl) as (acc & L & F).
    destruct (uv_list_foreach (uv0 :: l) undervolt_it
                ({| write := false; success := true; nll := false |}, s))
      as [ctx1 s1].
    exists acc. split; assumption.
Qed.

End VoltageExtras.

Lemma undervolt_it_reports_applied_offset_witness :
  exists pre val,
    out (snd (undervolt_it (P := mailbox_platform) cpu_target
                ({| write := true; success := true; nll := false |},
                 mailbox_state)))
    = pre ++ [UvValue "CPU" 0 val] /\
    success (fst (undervolt_it (P := mailbox_platform) cpu_target
                    ({| write := true; success := true; nll := false |},
                     mailbox_state))) = true /\
    is_finite val = true /\
    (Qabs (to_Q val - to_Q (absf (of_Z (-50)))) <= 1000 # 1024)%Q.
Proof.
  apply (undervolt_it_reports_applied_offset (P := mailbox_platform)
           cpu_target {| write := true; success := true; nll := false |}
           mailbox_state
           (snd (undervolt_transfer (P := mailbox_platform) cpu_target true
                   mailbox_state))
           (snd (fst (undervolt_transfer (P := mailbox_platform) cpu_target
                        true mailbox_state)))).
  - reflexivity.
  - reflexivity.
  - vm_compute. reflexivity.
Defined.
